(** * prometheus-weather-gov: the forecast cache and the measurement pipeline

    A shallow embedding of [src/weather.py].  Python objects that are mutated
    in place (the [OrderedDict] of a cache, the Prometheus counters, the
    [lru_cache] memo) become explicit state; a call that may raise returns an
    [outcome]; [pendulum.now()] is an instant supplied by the caller.

    - instants and durations are integers (microseconds, the resolution of
      [pendulum]); the process runs with [TZ=UTC], so adding a duration is
      integer addition;
    - a forecast document is a value as [json.loads] returns it, with the
      dynamic typing of Python: an operation on a value of the wrong kind
      raises [TypeError] or [AttributeError], a JSON integer is an [int] of
      any size and is rounded to a binary64 float, or raises
      [OverflowError], only where the code divides it or sets a gauge to it;
    - a Prometheus counter is a [nat]; a labelled counter is a finite map
      from the label values to the count of the child. *)

From Stdlib Require Import ZArith Floats.
From stdpp Require Import gmap strings list.

Definition Time := Z.

(** ** Python exceptions and outcomes *)

Inductive exn :=
  | KeyError
  | ValueError
  | TypeError
  | AttributeError
  | OverflowError
  | ConnectionError
  | JSONDecodeError.

#[global] Instance exn_eq_dec : EqDecision exn.
Proof. solve_decision. Defined.

Inductive outcome (A : Type) :=
  | Ret (a : A)
  | Raise (e : exn).
Arguments Ret {A} a.
Arguments Raise {A} e.

#[global] Instance outcome_ret : MRet outcome := @Ret.

#[global] Instance outcome_bind : MBind outcome := λ A B f o,
  match o with
  | Ret a => f a
  | Raise e => Raise e
  end.

#[global] Instance outcome_fmap : FMap outcome := λ A B f o,
  match o with
  | Ret a => Ret (f a)
  | Raise e => Raise e
  end.

(** ** [collections.OrderedDict]

    An association list in iteration order: the head is the first item, the
    last element is the item [popitem(last=True)] removes.  Keys are unique
    ([wf]); every operation keeps them so. *)

Module OrderedDict.
Section ordered_dict.
Context {K V : Type} `{EqDecision K}.

Definition t := list (K * V).

Definition keys (d : t) : list K := d.*1.

Definition wf (d : t) : Prop := NoDup (keys d).

(** [d.get(key)] *)
Fixpoint get (d : t) (key : K) : option V :=
  match d with
  | [] => None
  | (k, v) :: d' => if decide (k = key) then Some v else get d' key
  end.

(** [del d[key]], at a key that is present (its one call site has just
    read the key); an absent key leaves [d] as it is. *)
Fixpoint del (d : t) (key : K) : t :=
  match d with
  | [] => []
  | (k, v) :: d' => if decide (k = key) then del d' key else (k, v) :: del d' key
  end.

(** [d[key] = v]: an existing key keeps its position, a new key goes last. *)
Fixpoint set (d : t) (key : K) (v : V) : t :=
  match d with
  | [] => [(key, v)]
  | (k, v') :: d' =>
      if decide (k = key) then (key, v) :: d' else (k, v') :: set d' key v
  end.

(** [d.move_to_end(key, last=False)]: the item becomes the first one.
    [None] is Python's [KeyError] for an absent key. *)
Definition move_to_end_first (d : t) (key : K) : option t :=
  match get d key with
  | Some v => Some ((key, v) :: del d key)
  | None => None
  end.

(** [d.popitem(last=True)]: the last item and the rest; [None] is the
    [KeyError] of an empty dictionary. *)
Fixpoint popitem_last (d : t) : option ((K * V) * t) :=
  match d with
  | [] => None
  | kv :: d' =>
      match popitem_last d' with
      | None => Some (kv, [])
      | Some (x, rest) => Some (x, kv :: rest)
      end
  end.
End ordered_dict.
Arguments t : clear implicits.
End OrderedDict.

(** ** [class ExpiringCache] *)

Module ExpiringCache.

Record record (V : Type) := Record_ { validity : Time; value : V }.
Arguments Record_ {V} validity value.
Arguments validity {V} _.
Arguments value {V} _.

Record t (K V : Type) := Cache {
  entries : OrderedDict.t K (record V);
  cache_name : string;
  age_params : Z;
  max_size : Z;
  metric_cache_write : nat;
  metric_cache_get_hit : nat;
  metric_cache_get_miss : nat;
  metric_cache_expirations : nat;
  metric_cache_overflow : nat
}.
Arguments Cache {K V}.
Arguments entries {K V} _.
Arguments cache_name {K V} _.
Arguments age_params {K V} _.
Arguments max_size {K V} _.
Arguments metric_cache_write {K V} _.
Arguments metric_cache_get_hit {K V} _.
Arguments metric_cache_get_miss {K V} _.
Arguments metric_cache_expirations {K V} _.
Arguments metric_cache_overflow {K V} _.

Section expiring_cache.
Context {K V : Type} `{EqDecision K}.

Local Abbreviation cache := (t K V).

(** [__init__]: [age_params] is the duration [pendulum.now().add] adds. *)
Definition new (name : string) (max : Z) (age : Z) : cache :=
  Cache [] name age max 0 0 0 0 0.

Definition set_entries (e : OrderedDict.t K (record V)) (c : cache) : cache :=
  Cache e (cache_name c) (age_params c) (max_size c) (metric_cache_write c)
    (metric_cache_get_hit c) (metric_cache_get_miss c)
    (metric_cache_expirations c) (metric_cache_overflow c).

Definition inc_write (c : cache) : cache :=
  Cache (entries c) (cache_name c) (age_params c) (max_size c)
    (S (metric_cache_write c)) (metric_cache_get_hit c)
    (metric_cache_get_miss c) (metric_cache_expirations c)
    (metric_cache_overflow c).

Definition inc_hit (c : cache) : cache :=
  Cache (entries c) (cache_name c) (age_params c) (max_size c)
    (metric_cache_write c) (S (metric_cache_get_hit c))
    (metric_cache_get_miss c) (metric_cache_expirations c)
    (metric_cache_overflow c).

Definition inc_miss (c : cache) : cache :=
  Cache (entries c) (cache_name c) (age_params c) (max_size c)
    (metric_cache_write c) (metric_cache_get_hit c)
    (S (metric_cache_get_miss c)) (metric_cache_expirations c)
    (metric_cache_overflow c).

Definition inc_expirations (c : cache) : cache :=
  Cache (entries c) (cache_name c) (age_params c) (max_size c)
    (metric_cache_write c) (metric_cache_get_hit c)
    (metric_cache_get_miss c) (S (metric_cache_expirations c))
    (metric_cache_overflow c).

Definition inc_overflow (c : cache) : cache :=
  Cache (entries c) (cache_name c) (age_params c) (max_size c)
    (metric_cache_write c) (metric_cache_get_hit c)
    (metric_cache_get_miss c) (metric_cache_expirations c)
    (S (metric_cache_overflow c)).

Definition size (c : cache) : Z := Z.of_nat (length (entries c)).

(** [get]: [now] is what [pendulum.now()] returns when the record exists. *)
Definition get (now : Time) (key : K) (c : cache) : option V * cache :=
  match OrderedDict.get (entries c) key with
  | None => (None, inc_miss c)
  | Some r =>
      if (validity r <? now)%Z
      then (None,
            set_entries (OrderedDict.del (entries c) key)
              (inc_expirations (inc_miss c)))
      else (Some (value r), inc_hit c)
  end.

(** [insert]: the state is returned also when [popitem] raises, since the
    overflow counter has been incremented by then. *)
Definition insert (now : Time) (key : K) (v : V) (c : cache)
  : outcome unit * cache :=
  let evicted :=
    if (max_size c <=? size c)%Z
    then
      let c1 := inc_overflow c in
      match OrderedDict.popitem_last (entries c1) with
      | None => (Raise KeyError, c1)
      | Some (_, rest) => (Ret (), set_entries rest c1)
      end
    else (Ret (), c) in
  match evicted with
  | (Raise e, c1) => (Raise e, c1)
  | (Ret _, c1) =>
      let r := Record_ (now + age_params c1)%Z v in
      let e := OrderedDict.set (entries c1) key r in
      match OrderedDict.move_to_end_first e key with
      | None => (Raise KeyError, set_entries e c1)
      | Some e' => (Ret (), inc_write (set_entries e' c1))
      end
  end.

(** A history of calls on one cache, each with the instant the clock shows;
    a call that raises leaves the state it had reached. *)
Inductive op :=
  | Get (now : Time) (key : K)
  | Insert (now : Time) (key : K) (v : V).

Definition step (c : cache) (o : op) : cache :=
  match o with
  | Get now key => (get now key c).2
  | Insert now key v => (insert now key v c).2
  end.

Definition run (ops : list op) (c : cache) : cache := foldl step c ops.

(** [insert] called once per element, in the order of the list. *)
Definition inserts (l : list (Time * K * V)) : list op :=
  (λ x, Insert x.1.1 x.1.2 x.2) <$> l.

(** The size bound, allowing for a cache that cannot hold anything. *)
Definition bounded (c : cache) : Prop := (size c ≤ max_size c)%Z.

Definition inv (c : cache) : Prop := bounded c ∨ entries c = [].
End expiring_cache.
End ExpiringCache.

(** ** Values of the pipeline *)

Module LatLong.
(** The two query parameters, as [request.args] holds them. *)
Record t := Make { latitude : string; longitude : string }.
#[global] Instance eq_dec : EqDecision t.
Proof. solve_decision. Defined.
End LatLong.

Module Measure.
Record t := Make { key : string; name : string; unit : string }.
End Measure.

Module GridpointLocation.
Record t := Make { wfo : string; x : Z; y : Z }.
#[global] Instance eq_dec : EqDecision t.
Proof. solve_decision. Defined.
End GridpointLocation.

(** ** JSON documents *)

Module Json.
(** A value as [json.loads] returns it: [null] is [None]; a number written
    without fraction or exponent is an [int], of any size; any other number
    is a [float]; an object is a [dict], given by its items (the keys are
    unique). *)
#[local] Unset Elimination Schemes.
Inductive t :=
  | Null
  | Bool (b : bool)
  | Int (n : Z)
  | Float (f : float)
  | Str (s : string)
  | Array (items : list t)
  | Object (members : list (string * t)).
#[local] Set Elimination Schemes.

(** [x[key]] for a string [key]: only a [dict] can be indexed by a string. *)
Definition getitem (x : t) (key : string) : outcome t :=
  match x with
  | Object members =>
      match OrderedDict.get members key with
      | Some v => Ret v
      | None => Raise KeyError
      end
  | _ => Raise TypeError
  end.

(** [x.get(key)]: only a [dict] has the method; a missing key gives
    [None]. *)
Definition get (x : t) (key : string) : outcome t :=
  match x with
  | Object members => Ret (default Null (OrderedDict.get members key))
  | _ => Raise AttributeError
  end.

(** [for item in x]: the items of a list, the keys of a [dict], the
    characters of a string; nothing else can be iterated. *)
Definition iter (x : t) : outcome (list t) :=
  match x with
  | Array items => Ret items
  | Object members => Ret (Str <$> members.*1)
  | Str s =>
      Ret ((λ c, Str (String c EmptyString)) <$> String.list_ascii_of_string s)
  | _ => Raise TypeError
  end.

(** [x is None] *)
Definition is_None (x : t) : bool :=
  match x with
  | Null => true
  | _ => false
  end.

(** [x == s] for a string [s]: a value that is not a string is not equal
    to one. *)
Definition eq_str (x : t) (s : string) : bool :=
  match x with
  | Str s' => bool_decide (s' = s)
  | _ => false
  end.

(** The documents of the points endpoint, as far as the code reads them:
    objects whose ["properties"], when present, is an object in which
    ["cwa"] is a string and ["gridX"], ["gridY"] are integers.  A field of
    type [option] may be missing from its object. *)
Record point_properties := PointProperties {
  cwa : option string;
  gridX : option Z;
  gridY : option Z
}.

Record point := Point { point_props : option point_properties }.
End Json.

(** ** Numbers

    [float(n)] and [n / d] of Python integers are the exact result rounded
    to the nearest binary64, ties to even; they raise [OverflowError] when
    the rounded result is beyond the largest float.  [round_to_float m e]
    rounds [m * 2^e]. *)

Definition round_to_float (m e : Z) : outcome float :=
  let f := SF2Prim (binary_normalize prec emax m e false) in
  if is_infinity f then Raise OverflowError else Ret f.

(** [float(n)] *)
Definition float_of_int (n : Z) : outcome float := round_to_float n 0.

(** [a / b] for integers, [b] positive: the quotient is taken with at least
    55 significant bits, and one more bit that records a non-zero remainder,
    so that the one rounding sees on which side of a tie the exact quotient
    lies. *)
Definition int_truediv (a b : Z) : outcome float :=
  let k := Z.max 0 (Z.log2 b + 56 - Z.log2 (Z.abs a)) in
  let n := (Z.abs a * 2 ^ k)%Z in
  let sticky := if (n mod b =? 0)%Z then 0%Z else 1%Z in
  let m := (2 * (n / b) + sticky)%Z in
  round_to_float (if (a <? 0)%Z then - m else m)%Z (- k - 1).

(** [x / d] for a positive integer literal [d]: integer division for an
    [int] (a [bool] is the integer 0 or 1), float division for a [float],
    [TypeError] for anything else. *)
Definition truediv (x : Json.t) (d : Z) : outcome Json.t :=
  match x with
  | Json.Int a => Json.Float <$> int_truediv a d
  | Json.Bool b => Json.Float <$> int_truediv (Z.b2z b) d
  | Json.Float f => (λ fd, Json.Float (f / fd)) <$> float_of_int d
  | _ => Raise TypeError
  end.

(** ** What the libraries do

    Three operations are left to library code whose behaviour the program
    does not fix: [pendulum.parse(x).end] (the end instant of the interval
    that [x] spells; an exception when [x] is not a string, does not parse,
    or parses to something that has no [end] to compare with an instant),
    [float(s)] of a string ([None] is its [ValueError]), and [str(x)] of a
    number, a list or a [dict].  Everything below holds for any behaviour
    of these. *)

Record Library := {
  pendulum_end : Json.t → outcome Time;
  float_of_str : string → option float;
  repr : Json.t → string
}.

(** [str(x)] *)
Definition py_str (py : Library) (x : Json.t) : string :=
  match x with
  | Json.Str s => s
  | Json.Null => "None"
  | Json.Bool true => "True"
  | Json.Bool false => "False"
  | _ => repr py x
  end.

(** [float(x)] *)
Definition py_float (py : Library) (x : Json.t) : outcome float :=
  match x with
  | Json.Float f => Ret f
  | Json.Int n => float_of_int n
  | Json.Bool b => Ret (if b then 1%float else 0%float)
  | Json.Str s =>
      match float_of_str py s with
      | Some f => Ret f
      | None => Raise ValueError
      end
  | _ => Raise TypeError
  end.

Module UnitConversion.
Record t := Make { name : string; convert : Json.t → outcome Json.t }.
End UnitConversion.

(** ** [requests.get(url, headers=...).json()]

    The call raises when the connection fails or when the body is not JSON.
    The status code of a response is not looked at. *)

Inductive request :=
  | PointsRequest (lat long : string)
  | GridpointsRequest (wfo : string) (x y : Z).

Inductive response (J : Type) :=
  | NetworkError
  | Response (status : Z) (body : option J).
Arguments NetworkError {J}.
Arguments Response {J} status body.

Definition json {J} (r : response J) : outcome J :=
  match r with
  | NetworkError => Raise ConnectionError
  | Response _ None => Raise JSONDecodeError
  | Response _ (Some j) => Ret j
  end.

(** ** The registry of one report

    A [CollectorRegistry] with the gauges registered so far, by name, each
    with the value it is set to.  [Gauge(name, ..., registry=registry)]
    registers a new gauge, which stands at 0 until it is set; registering a
    name twice raises [ValueError].  [gauge.set(v)] sets the gauge to
    [float(v)]. *)

Definition Registry := list (string * float).

Definition Gauge (name : string) (registry : Registry) : outcome Registry :=
  if bool_decide (name ∈ registry.*1) then Raise ValueError
  else Ret (registry ++ [(name, 0%float)]).

Definition gauge_set (py : Library) (name : string) (v : Json.t)
    (registry : Registry) : outcome Registry :=
  f ← py_float py v;
  Ret ((λ g, if decide (g.1 = name) then (name, f) else g) <$> registry).

(** ** Labelled counters *)

Definition count `{Countable L} (m : gmap L nat) (l : L) : nat :=
  default 0 (m !! l).

Definition inc_label `{Countable L} (l : L) (m : gmap L nat) : gmap L nat :=
  <[l := S (count m l)]> m.

(** ** The process state *)

Record World := MkWorld {
  weather_cache : ExpiringCache.t GridpointLocation.t Registry;
  gridpoint_memo : OrderedDict.t LatLong.t (option GridpointLocation.t);
  GRIDPOINT_LOOKUP_FAILURES : nat;
  UNIT_CONVERSION_FAILURE : gmap string nat;
  FORECAST_LOOKUP_FAILURES : nat;
  FORECAST_MISMATCHED_UNIT : gmap (string * string) nat;
  FETCH_CURRENT_VALUE_FAILURE : gmap string nat;
  FORECAST_PROCESSING_FAILURES : nat;
  requests_sent : list request
}.

Definition set_weather_cache c (w : World) : World :=
  MkWorld c (gridpoint_memo w) (GRIDPOINT_LOOKUP_FAILURES w)
    (UNIT_CONVERSION_FAILURE w) (FORECAST_LOOKUP_FAILURES w)
    (FORECAST_MISMATCHED_UNIT w) (FETCH_CURRENT_VALUE_FAILURE w)
    (FORECAST_PROCESSING_FAILURES w) (requests_sent w).

Definition set_gridpoint_memo m (w : World) : World :=
  MkWorld (weather_cache w) m (GRIDPOINT_LOOKUP_FAILURES w)
    (UNIT_CONVERSION_FAILURE w) (FORECAST_LOOKUP_FAILURES w)
    (FORECAST_MISMATCHED_UNIT w) (FETCH_CURRENT_VALUE_FAILURE w)
    (FORECAST_PROCESSING_FAILURES w) (requests_sent w).

Definition inc_GRIDPOINT_LOOKUP_FAILURES (w : World) : World :=
  MkWorld (weather_cache w) (gridpoint_memo w)
    (S (GRIDPOINT_LOOKUP_FAILURES w))
    (UNIT_CONVERSION_FAILURE w) (FORECAST_LOOKUP_FAILURES w)
    (FORECAST_MISMATCHED_UNIT w) (FETCH_CURRENT_VALUE_FAILURE w)
    (FORECAST_PROCESSING_FAILURES w) (requests_sent w).

Definition inc_UNIT_CONVERSION_FAILURE (unit : string) (w : World) : World :=
  MkWorld (weather_cache w) (gridpoint_memo w) (GRIDPOINT_LOOKUP_FAILURES w)
    (inc_label unit (UNIT_CONVERSION_FAILURE w)) (FORECAST_LOOKUP_FAILURES w)
    (FORECAST_MISMATCHED_UNIT w) (FETCH_CURRENT_VALUE_FAILURE w)
    (FORECAST_PROCESSING_FAILURES w) (requests_sent w).

Definition inc_FORECAST_LOOKUP_FAILURES (w : World) : World :=
  MkWorld (weather_cache w) (gridpoint_memo w) (GRIDPOINT_LOOKUP_FAILURES w)
    (UNIT_CONVERSION_FAILURE w) (S (FORECAST_LOOKUP_FAILURES w))
    (FORECAST_MISMATCHED_UNIT w) (FETCH_CURRENT_VALUE_FAILURE w)
    (FORECAST_PROCESSING_FAILURES w) (requests_sent w).

Definition inc_FORECAST_MISMATCHED_UNIT (measure unit : string) (w : World)
  : World :=
  MkWorld (weather_cache w) (gridpoint_memo w) (GRIDPOINT_LOOKUP_FAILURES w)
    (UNIT_CONVERSION_FAILURE w) (FORECAST_LOOKUP_FAILURES w)
    (inc_label (measure, unit) (FORECAST_MISMATCHED_UNIT w))
    (FETCH_CURRENT_VALUE_FAILURE w)
    (FORECAST_PROCESSING_FAILURES w) (requests_sent w).

Definition inc_FETCH_CURRENT_VALUE_FAILURE (measure : string) (w : World)
  : World :=
  MkWorld (weather_cache w) (gridpoint_memo w) (GRIDPOINT_LOOKUP_FAILURES w)
    (UNIT_CONVERSION_FAILURE w) (FORECAST_LOOKUP_FAILURES w)
    (FORECAST_MISMATCHED_UNIT w)
    (inc_label measure (FETCH_CURRENT_VALUE_FAILURE w))
    (FORECAST_PROCESSING_FAILURES w) (requests_sent w).

Definition inc_FORECAST_PROCESSING_FAILURES (w : World) : World :=
  MkWorld (weather_cache w) (gridpoint_memo w) (GRIDPOINT_LOOKUP_FAILURES w)
    (UNIT_CONVERSION_FAILURE w) (FORECAST_LOOKUP_FAILURES w)
    (FORECAST_MISMATCHED_UNIT w) (FETCH_CURRENT_VALUE_FAILURE w)
    (S (FORECAST_PROCESSING_FAILURES w)) (requests_sent w).

Definition send (r : request) (w : World) : World :=
  MkWorld (weather_cache w) (gridpoint_memo w) (GRIDPOINT_LOOKUP_FAILURES w)
    (UNIT_CONVERSION_FAILURE w) (FORECAST_LOOKUP_FAILURES w)
    (FORECAST_MISMATCHED_UNIT w) (FETCH_CURRENT_VALUE_FAILURE w)
    (FORECAST_PROCESSING_FAILURES w) (requests_sent w ++ [r]).

(** ** Statements that may raise, over the process state

    The state a statement has reached is kept when it raises: counters that
    were incremented stay incremented. *)

Definition M (A : Type) : Type := World → outcome A * World.

Definition ret {A} (a : A) : M A := λ w, (Ret a, w).

Definition raise {A} (e : exn) : M A := λ w, (Raise e, w).

Definition bind {A B} (m : M A) (f : A → M B) : M B :=
  λ w, match m w with
       | (Ret a, w') => f a w'
       | (Raise e, w') => (Raise e, w')
       end.

Notation "'let*' x ':=' m 'in' k" := (bind m (λ x, k))
  (at level 10, x pattern, m at level 100, k at level 200).

Definition modify (f : World → World) : M unit := λ w, (Ret (), f w).

Definition lift {A} (o : outcome A) : M A := λ w, (o, w).

(** [d[key]] on a JSON object: [KeyError] when the key is missing. *)
Definition item {A} (o : option A) : M A :=
  match o with
  | Some a => ret a
  | None => raise KeyError
  end.

(** [with counter.count_exceptions(...)]: the counter is incremented when
    the body raises one of the counted exceptions, which is raised again. *)
Definition count_exceptions {A} (counted : exn → bool) (inc : World → World)
    (body : M A) : M A :=
  λ w, match body w with
       | (Ret a, w') => (Ret a, w')
       | (Raise e, w') => (Raise e, if counted e then inc w' else w')
       end.

(** [try: body  except KeyError: handler] *)
Definition try_except_KeyError {A} (body : M A) (handler : M A) : M A :=
  λ w, match body w with
       | (Raise KeyError, w') => handler w'
       | r => r
       end.

Definition any_exception (e : exn) : bool := true.

Definition is_KeyError (e : exn) : bool := bool_decide (e = KeyError).

Definition requests_get_json {J} (r : request) (remote : response J) : M J :=
  λ w, (json remote, send r w).

(** ** [get_gridpoint_location], under [lru_cache(maxsize=65536)] *)

(** The decorated function body. *)
Definition resolve_gridpoint (remote : response Json.point)
    (latlong : LatLong.t) : M (option GridpointLocation.t) :=
  let lat := LatLong.latitude latlong in
  let long := LatLong.longitude latlong in
  let* data :=
    count_exceptions any_exception inc_GRIDPOINT_LOOKUP_FAILURES
      (requests_get_json (PointsRequest lat long) remote) in
  try_except_KeyError
    (count_exceptions is_KeyError inc_GRIDPOINT_LOOKUP_FAILURES
       (let* props := item (Json.point_props data) in
        let* wfo := item (Json.cwa props) in
        let* x := item (Json.gridX props) in
        let* y := item (Json.gridY props) in
        ret (Some (GridpointLocation.Make wfo x y))))
    (ret None).

(** [functools.lru_cache]: the memo lists the most recently used argument
    first.  A hit returns the stored result, whatever it is, without calling
    the function; a call that returns is stored, evicting the least recently
    used argument from a full memo; a call that raises stores nothing. *)
Definition make_room {B} (maxsize : Z) (memo : OrderedDict.t LatLong.t B)
  : OrderedDict.t LatLong.t B :=
  if decide (maxsize ≤ Z.of_nat (length memo))%Z
  then match OrderedDict.popitem_last memo with
       | Some (_, rest) => rest
       | None => memo
       end
  else memo.

Definition lru_cache {B} (maxsize : Z)
    (f : LatLong.t → M B)
    (memo : World → OrderedDict.t LatLong.t B)
    (set_memo : OrderedDict.t LatLong.t B → World → World)
    (arg : LatLong.t) : M B :=
  λ w, match OrderedDict.get (memo w) arg with
       | Some b => (Ret b, set_memo ((arg, b) :: OrderedDict.del (memo w) arg) w)
       | None =>
           match f arg w with
           | (Raise e, w') => (Raise e, w')
           | (Ret b, w') =>
               (Ret b, set_memo ((arg, b) :: make_room maxsize (memo w')) w')
           end
       end.


Definition get_gridpoint_location (remote : response Json.point)
  : LatLong.t → M (option GridpointLocation.t) :=
  lru_cache 65536 (resolve_gridpoint remote) gridpoint_memo set_gridpoint_memo.

(** ** [convert_unit] *)

Definition prom_units : OrderedDict.t string UnitConversion.t :=
  [ ("degC", UnitConversion.Make "celsius" (λ x, Ret x));
    ("percent", UnitConversion.Make "ratio" (λ x, truediv x 100));
    ("m", UnitConversion.Make "meters" (λ x, Ret x));
    ("degree_(angle)", UnitConversion.Make "angle" (λ x, Ret x));
    ("m_s-1", UnitConversion.Make "meters_per_second" (λ x, Ret x));
    ("mm", UnitConversion.Make "meters" (λ x, truediv x 1000)) ].

Definition convert_unit (unit : string) : M (option UnitConversion.t) :=
  let conversion := OrderedDict.get prom_units unit in
  let* _ :=
    match conversion with
    | None => modify (inc_UNIT_CONVERSION_FAILURE unit)
    | Some _ => ret ()
    end in
  ret conversion.

(** ** [fetch_current] *)

(** The loop over [data["values"]]: the first report whose interval ends
    after [now] decides; [None] when the reports are used up. *)
Fixpoint first_current (py : Library) (now : Time) (reports : list Json.t)
  : outcome Json.t :=
  match reports with
  | [] => Ret Json.Null
  | report :: rest =>
      validTime ← Json.getitem report "validTime";
      ends ← pendulum_end py validTime;
      if (now <? ends)%Z then Json.getitem report "value"
      else first_current py now rest
  end.

Definition fetch_current (py : Library) (now : Time) (data : Json.t)
  : outcome Json.t :=
  values ← Json.getitem data "values";
  reports ← Json.iter values;
  first_current py now reports.

(** The end of the interval of a reading, and a reading whose interval has
    ended by [now]. *)
Definition interval_end (py : Library) (report : Json.t) : outcome Time :=
  validTime ← Json.getitem report "validTime";
  pendulum_end py validTime.

Definition ended (py : Library) (now : Time) (report : Json.t) : Prop :=
  ∃ ends, interval_end py report = Ret ends ∧ (ends ≤ now)%Z.

(** ** [get_weather] *)

Definition weather_cache_get (now : Time) (location : GridpointLocation.t)
  : M (option Registry) :=
  λ w, let r := ExpiringCache.get now location (weather_cache w) in
       (Ret r.1, set_weather_cache r.2 w).

Definition weather_cache_insert (now : Time) (location : GridpointLocation.t)
    (registry : Registry) : M unit :=
  λ w, let r := ExpiringCache.insert now location registry (weather_cache w) in
       (r.1, set_weather_cache r.2 w).

Definition measures : list Measure.t :=
  [ Measure.Make "temperature" "temperature" "degC";
    Measure.Make "dewpoint" "dewpoint" "degC";
    Measure.Make "maxTemperature" "max_temperature" "degC";
    Measure.Make "minTemperature" "min_temperature" "degC";
    Measure.Make "relativeHumidity" "relative_humidity" "percent";
    Measure.Make "apparentTemperature" "apparent_temperature" "degC";
    Measure.Make "heatIndex" "heat_index" "degC";
    Measure.Make "windChill" "wind_chill" "degC";
    Measure.Make "skyCover" "sky_cover" "percent";
    Measure.Make "windDirection" "wind_direction" "degree_(angle)";
    Measure.Make "windSpeed" "wind_speed" "m_s-1";
    Measure.Make "windGust" "wind_gust" "m_s-1";
    Measure.Make "probabilityOfPrecipitation" "probability_of_precipitation"
      "percent";
    Measure.Make "quantitativePrecipitation" "quantitative_precipitation" "mm";
    Measure.Make "iceAccumulation" "ice_accumulation" "mm";
    Measure.Make "snowfallAmount" "snowfall_mount" "mm";
    Measure.Make "snowLevel" "snow_level" "m";
    Measure.Make "ceilingHeight" "ceiling_height" "m";
    Measure.Make "visibility" "visibility" "m";
    Measure.Make "transportWindSpeed" "transport_wind_speed" "m_s-1";
    Measure.Make "transportWindDirection" "transport_wind_direction"
      "degree_(angle)";
    Measure.Make "mixingHeight" "mixing_height" "m";
    Measure.Make "twentyFootWindSpeed" "twenty_foot_wind_speed" "m_s-1";
    Measure.Make "twentyFootWindDirection" "twenty_foot_wind_direction"
      "degree_(angle)" ].

Definition gauge_name (measure : Measure.t) (unit : UnitConversion.t) : string :=
  "weather_" +:+ Measure.name measure +:+ "_" +:+ UnitConversion.name unit.

(** The body of the loop over [measures]; [now] is the instant
    [fetch_current] reads.  The gauge is registered when it is constructed,
    before the value is converted.  Whatever the body raises is counted as a
    processing failure; a [KeyError] ends the turn of the measure, any other
    exception leaves the loop.  A [KeyError] can only come from the lookups
    that precede the gauge, so the handler continues with the registry the
    turn started with. *)
Definition process_measure (py : Library) (now : Time) (data : Json.t)
    (measure : Measure.t) (registry : Registry) : M Registry :=
  try_except_KeyError
    (count_exceptions any_exception inc_FORECAST_PROCESSING_FAILURES
       (let* props := lift (Json.getitem data "properties") in
        let* records := lift (Json.getitem props (Measure.key measure)) in
        let* uom := lift (Json.get records "uom") in
        let* _ :=
          if negb (Json.eq_str uom ("unit:" +:+ Measure.unit measure))
          then modify (inc_FORECAST_MISMATCHED_UNIT
                         (Measure.key measure) (py_str py uom))
          else ret () in
        let* value := lift (fetch_current py now records) in
        let* _ :=
          if Json.is_None value
          then modify (inc_FETCH_CURRENT_VALUE_FAILURE (Measure.key measure))
          else ret () in
        let* unit := convert_unit (Measure.unit measure) in
        match unit with
        | Some unit =>
            if negb (Json.is_None value)
            then
              let* registered :=
                lift (Gauge (gauge_name measure unit) registry) in
              let* converted := lift (UnitConversion.convert unit value) in
              lift (gauge_set py (gauge_name measure unit) converted
                      registered)
            else ret registry
        | None => ret registry
        end))
    (ret registry).

(** [for measure in measures]: the [i]-th reading of the clock serves the
    measure at hand, the next readings the following ones. *)
Fixpoint process_measures (py : Library) (clock : nat → Time) (i : nat)
    (data : Json.t) (ms : list Measure.t) (registry : Registry) : M Registry :=
  match ms with
  | [] => ret registry
  | measure :: rest =>
      let* registry := process_measure py (clock i) data measure registry in
      process_measures py clock (S i) data rest registry
  end.

(** *** What the loop yields, measure by measure

    The series the payload holds for a measure, with the unit it declares;
    the current value read from it; and what the turn of the measure comes
    to: the gauge it registers, or none, or the exception it raises
    ([turn]), of which the loop catches [KeyError] ([gauge]). *)

Definition series_of (data : Json.t) (measure : Measure.t)
  : outcome (Json.t * Json.t) :=
  props ← Json.getitem data "properties";
  records ← Json.getitem props (Measure.key measure);
  uom ← Json.get records "uom";
  Ret (records, uom).

Definition current_value (py : Library) (now : Time) (data : Json.t)
    (measure : Measure.t) : outcome Json.t :=
  series ← series_of data measure;
  fetch_current py now series.1.

Definition turn (py : Library) (now : Time) (data : Json.t)
    (measure : Measure.t) : outcome (option (string * float)) :=
  value ← current_value py now data measure;
  match OrderedDict.get prom_units (Measure.unit measure) with
  | Some unit =>
      if Json.is_None value then Ret None
      else
        converted ← UnitConversion.convert unit value;
        v ← py_float py converted;
        Ret (Some (gauge_name measure unit, v))
  | None => Ret None
  end.

Definition caught {A} (o : outcome (option A)) : outcome (option A) :=
  match o with
  | Raise KeyError => Ret None
  | _ => o
  end.

Definition gauge (py : Library) (now : Time) (data : Json.t)
    (measure : Measure.t) : outcome (option (string * float)) :=
  caught (turn py now data measure).

(** The report of the loop: the gauges of the measures in their order, or
    the first exception that leaves the loop. *)
Fixpoint gauges (py : Library) (clock : nat → Time) (i : nat) (data : Json.t)
    (ms : list Measure.t) : outcome Registry :=
  match ms with
  | [] => Ret []
  | measure :: rest =>
      g ← gauge py (clock i) data measure;
      report ← gauges py clock (S i) data rest;
      Ret (option_list g ++ report)
  end.

(** The number of turns that raise, up to the one that leaves the loop:
    what [count_exceptions()] counts. *)
Fixpoint raising_turns (py : Library) (clock : nat → Time) (i : nat)
    (data : Json.t) (ms : list Measure.t) : nat :=
  match ms with
  | [] => 0
  | measure :: rest =>
      match turn py (clock i) data measure with
      | Ret _ => raising_turns py clock (S i) data rest
      | Raise KeyError => S (raising_turns py clock (S i) data rest)
      | Raise _ => 1
      end
  end.

(** The key of a measure is missing from the payload: [data["properties"]]
    has no such key, or [data] has no ["properties"]. *)
Definition key_missing (data : Json.t) (measure : Measure.t) : Prop :=
  Json.getitem data "properties" = Raise KeyError
  ∨ ∃ props, Json.getitem data "properties" = Ret props
             ∧ Json.getitem props (Measure.key measure) = Raise KeyError.

(** The names under which the measures of a list can be registered. *)
Definition gauge_names (ms : list Measure.t) : list string :=
  omap (λ measure,
          gauge_name measure
            <$> OrderedDict.get prom_units (Measure.unit measure)) ms.

(** The counters the loop body moves before it reaches the gauge. *)
Definition note_mismatch (py : Library) (measure : Measure.t) (uom : Json.t)
    (w : World) : World :=
  if Json.eq_str uom ("unit:" +:+ Measure.unit measure) then w
  else inc_FORECAST_MISMATCHED_UNIT (Measure.key measure) (py_str py uom) w.

Definition note_no_value (measure : Measure.t) (value : Json.t)
    (w : World) : World :=
  if Json.is_None value
  then inc_FETCH_CURRENT_VALUE_FAILURE (Measure.key measure) w
  else w.

Definition note_no_unit (measure : Measure.t) (w : World) : World :=
  match OrderedDict.get prom_units (Measure.unit measure) with
  | None => inc_UNIT_CONVERSION_FAILURE (Measure.unit measure) w
  | Some _ => w
  end.

(** The state a turn has reached when it ends, but for the count of the
    exception that ends it: the mismatch is noted once the series and its
    unit are read, the missing value and the missing conversion once the
    current value is. *)
Definition noted (py : Library) (now : Time) (data : Json.t)
    (measure : Measure.t) (w : World) : World :=
  match series_of data measure with
  | Raise _ => w
  | Ret (records, uom) =>
      match fetch_current py now records with
      | Raise _ => note_mismatch py measure uom w
      | Ret value =>
          note_no_unit measure
            (note_no_value measure value (note_mismatch py measure uom w))
      end
  end.

(** A turn that an exception ends: the exception is counted; a [KeyError]
    is caught, and the loop goes on with the registry as it was; any other
    exception leaves the loop. *)
Definition failed (e : exn) (registry : Registry) (w : World)
  : outcome Registry * World :=
  (if bool_decide (e = KeyError) then Ret registry else Raise e,
   inc_FORECAST_PROCESSING_FAILURES w).

(** The loop touches nothing but its failure counters, and those only
    upwards. *)
Record counters_grow (w w' : World) : Prop := CountersGrow {
  grow_cache : weather_cache w' = weather_cache w;
  grow_memo : gridpoint_memo w' = gridpoint_memo w;
  grow_requests : requests_sent w' = requests_sent w;
  grow_gridpoint :
    GRIDPOINT_LOOKUP_FAILURES w' = GRIDPOINT_LOOKUP_FAILURES w;
  grow_lookup : FORECAST_LOOKUP_FAILURES w' = FORECAST_LOOKUP_FAILURES w;
  grow_processing :
    FORECAST_PROCESSING_FAILURES w ≤ FORECAST_PROCESSING_FAILURES w';
  grow_unit : ∀ l,
    count (UNIT_CONVERSION_FAILURE w) l ≤ count (UNIT_CONVERSION_FAILURE w') l;
  grow_mismatch : ∀ l,
    count (FORECAST_MISMATCHED_UNIT w) l
    ≤ count (FORECAST_MISMATCHED_UNIT w') l;
  grow_value : ∀ l,
    count (FETCH_CURRENT_VALUE_FAILURE w) l
    ≤ count (FETCH_CURRENT_VALUE_FAILURE w') l
}.

(** [clock 0] is the instant of the cache probe, [clock (S i)] the instant
    at which the [i]-th measure is extracted, and the reading after those
    the instant of the insertion.  A cached registry is a truthy object, so
    [if cached] is the test for a hit. *)
Definition get_weather (py : Library) (clock : nat → Time)
    (remote : response Json.t) (location : GridpointLocation.t) : M Registry :=
  let* cached := weather_cache_get (clock 0) location in
  match cached with
  | Some registry => ret registry
  | None =>
      let* data :=
        count_exceptions any_exception inc_FORECAST_LOOKUP_FAILURES
          (requests_get_json
             (GridpointsRequest (GridpointLocation.wfo location)
                (GridpointLocation.x location) (GridpointLocation.y location))
             remote) in
      let* registry := process_measures py clock 1 data measures [] in
      let* _ :=
        weather_cache_insert (clock (S (length measures))) location registry in
      ret registry
  end.

(** The state at start-up: [weather_cache] holds at most 1024 reports for
    five minutes each. *)
Definition initial_world : World :=
  MkWorld (ExpiringCache.new "forecasts" 1024 300000000) []
    0 ∅ 0 ∅ ∅ 0 [].

(** ** Caches and documents used as concrete inputs *)

Module Samples.
Import ExpiringCache.
#[local] Open Scope Z_scope.
#[local] Set Warnings "-inexact-float".

(** One entry, inserted at instant 0 with a lifetime of 10. *)
Definition one_entry : ExpiringCache.t string Z :=
  (insert 0 "k" 7 (new "forecasts" 1024 10)).2.

(** A cache that can hold nothing. *)
Definition no_room : ExpiringCache.t string Z := new "forecasts" 0 10.

(** A full cache of two entries; ["b"] is the more recent one. *)
Definition full_ab : ExpiringCache.t string Z :=
  run [Insert 0 "a" 1; Insert 1 "b" 2] (new "forecasts" 2 10).

(** A coordinate pair and two answers of the points endpoint: an error
    document without [properties], and a full one. *)
Definition berkshires : LatLong.t := LatLong.Make "42.45" "-73.25".


Definition points_found : response Json.point :=
  Response 200
    (Some (Json.Point
             (Some (Json.PointProperties (Some "ALY") (Some 30) (Some 60))))).

(** A grid location, a clock that stands still at noon (instant 0), and an
    error answer of the gridpoints endpoint: status 503 with a JSON body
    that has no [properties]. *)
Definition albany : GridpointLocation.t := GridpointLocation.Make "ALY" 30 60.

Definition noon : nat → Time := λ _, 0.

Definition forecast_unavailable : response Json.t :=
  Response 503
    (Some (Json.Object [("title", Json.Str "Service Unavailable")])).

(** Instant 0 is noon of 2024-05-01, UTC.  Two intervals, one that ended a
    minute before noon and one that ends an hour after it, and libraries
    that read these two as [pendulum] does; no sample has a string where a
    number is expected, or a unit that is a number, a list or a [dict]. *)
Definition before_noon : string := "2024-05-01T11:00:00+00:00/PT59M".

Definition after_noon : string := "2024-05-01T12:00:00+00:00/PT1H".

Definition python : Library := {|
  pendulum_end x :=
    match x with
    | Json.Str s =>
        if decide (s = before_noon) then Ret (-60000000)
        else if decide (s = after_noon) then Ret 3600000000
        else Raise ValueError
    | _ => Raise TypeError
    end;
  float_of_str _ := None;
  repr _ := "-"
|}.

Definition reading (validTime : string) (value : Json.t) : Json.t :=
  Json.Object [("validTime", Json.Str validTime); ("value", value)].

Definition series (uom : string) (readings : list Json.t) : Json.t :=
  Json.Object [("uom", Json.Str uom); ("values", Json.Array readings)].

(** A forecast document, read at noon: no ["temperature"]; a dew point
    declared in a unit other than the expected ["unit:degC"]; a humidity
    whose first reading has ended; a wind speed with no current reading. *)
Definition forecast_document : Json.t :=
  Json.Object
    [ ("properties",
       Json.Object
         [ ("dewpoint",
            series "wmoUnit:degF" [reading after_noon (Json.Float 12.5)]);
           ("relativeHumidity",
            series "unit:percent"
              [reading before_noon (Json.Int 40);
               reading after_noon (Json.Int 50)]);
           ("windSpeed",
            series "unit:m_s-1" [reading before_noon (Json.Int 3)]) ]) ].

Definition forecast_ok : response Json.t :=
  Response 200 (Some forecast_document).

(** Two documents with an integer beyond the range of a float: as the dew
    point, declared in another unit than expected, of a document without
    ["temperature"]; and as the humidity of a document whose dew point is
    declared in another unit than expected. *)
Definition forecast_huge_dewpoint : Json.t :=
  Json.Object
    [ ("properties",
       Json.Object
         [ ("dewpoint",
            series "wmoUnit:degC" [reading after_noon (Json.Int (10 ^ 400))]);
           ("relativeHumidity",
            series "unit:percent" [reading after_noon (Json.Int 50)]) ]) ].

Definition forecast_huge_humidity : Json.t :=
  Json.Object
    [ ("properties",
       Json.Object
         [ ("dewpoint",
            series "wmoUnit:degC" [reading after_noon (Json.Float 12.5)]);
           ("relativeHumidity",
            series "unit:percent"
              [reading after_noon (Json.Int (10 ^ 400))]) ]) ].
End Samples.

(** ** Histories of one cache, counted *)

Section history.
Context {K V : Type}.

(** The keys a history inserts, and how many of its calls are [get]s and
    [insert]s. *)
Definition inserted_keys (ops : list (@ExpiringCache.op K V)) : list K :=
  omap (λ o, match o with
             | ExpiringCache.Insert _ key _ => Some key
             | ExpiringCache.Get _ _ => None
             end) ops.

Fixpoint count_gets (ops : list (@ExpiringCache.op K V)) : nat :=
  match ops with
  | [] => 0
  | ExpiringCache.Get _ _ :: rest => S (count_gets rest)
  | ExpiringCache.Insert _ _ _ :: rest => count_gets rest
  end.

Definition count_inserts (ops : list (@ExpiringCache.op K V)) : nat :=
  length (inserted_keys ops).
End history.

(** ** The [/weather] route

    The response of the handler: the status, the [Content-Type] header when
    the handler sets one, and the body, which is a message or the exposition
    of a registry ([generate_latest(registry)], kept as the registry). *)

Inductive body :=
  | Text (message : string)
  | Metrics (registry : Registry).

Record http_response := HttpResponse {
  status_code : Z;
  content_type : option string;
  payload : body
}.

Definition missing_parameters : string :=
  "error: latitude and longitude must be integers in the GET parameters (like: latitude=42.45&longitude=-73.25)".

Definition unknown_location : string :=
  "error: NWS can't identify a grid point location for the provided latitude and longitude. Are they formatted correctly (latitude=42.45&longitude=-73.25)? Are they in the US?".

(** [args] are the query parameters ([request.args]); [points] and
    [forecast] are what the two remote endpoints answer if they are asked. *)
Definition weather (py : Library) (args : gmap string string)
    (clock : nat → Time) (points : response Json.point)
    (forecast : response Json.t) : M http_response :=
  let* location :=
    try_except_KeyError
      (let* latitude := item (args !! "latitude") in
       let* longitude := item (args !! "longitude") in
       ret (Some (LatLong.Make latitude longitude)))
      (ret None) in
  match location with
  | None => ret (HttpResponse 400 None (Text missing_parameters))
  | Some location =>
      let* gridpoint := get_gridpoint_location points location in
      match gridpoint with
      | None => ret (HttpResponse 400 None (Text unknown_location))
      | Some gridpoint =>
          let* registry := get_weather py clock forecast gridpoint in
          ret (HttpResponse 200 (Some "text/plain") (Metrics registry))
      end
  end.

(** Requests served one after the other; a request whose handler raises
    leaves the state it had reached. *)
Record call := Call {
  call_args : gmap string string;
  call_clock : nat → Time;
  call_points : response Json.point;
  call_forecast : response Json.t
}.

Definition serve_one (py : Library) (w : World) (c : call) : World :=
  (weather py (call_args c) (call_clock c) (call_points c) (call_forecast c)
     w).2.

Definition serve (py : Library) (calls : list call) (w : World) : World :=
  foldl (serve_one py) w calls.

(** The two stores of the process within their bounds. *)
Definition memory_bounded (w : World) : Prop :=
  ExpiringCache.max_size (weather_cache w) = 1024%Z
  ∧ (ExpiringCache.size (weather_cache w) ≤ 1024)%Z
  ∧ (Z.of_nat (length (gridpoint_memo w)) ≤ 65536)%Z.

(** A statement keeps [P] when its final state, returned or raised from,
    satisfies [P] whenever its initial state does. *)
Definition keeps (P : World → Prop) {A} (m : M A) : Prop :=
  ∀ w, P w → P (m w).2.

(** ** Requests used as concrete inputs *)

Module Scenarios.
#[local] Open Scope Z_scope.

Definition here : gmap string string :=
  list_to_map [("latitude", "42.45"); ("longitude", "-73.25")].

Definition no_longitude : gmap string string :=
  list_to_map [("latitude", "42.45")].

(** The clock of a later request, one minute after instant 10. *)
Definition a_minute_later : nat → Time := λ _, 60000010.

End Scenarios.

(** * Properties *)

(** ** The ordered dictionary *)

Section ordered_dict_facts.
Context {K V : Type} `{EqDecision K}.
Implicit Types (d : OrderedDict.t K V) (k key : K) (v : V).

Lemma od_get_None d key :
  OrderedDict.get d key = None ↔ key ∉ OrderedDict.keys d.
Proof.
  induction d as [|[k v] d IH]; simpl.
  - split; [intros _; apply not_elem_of_nil | done].
  - rewrite not_elem_of_cons. destruct (decide (k = key)) as [->|Hne].
    + split; [done | intros [? _]; done].
    + rewrite IH. split; [done | by intros [_ ?]].
Qed.

Lemma od_del_absent d key :
  OrderedDict.get d key = None → OrderedDict.del d key = d.
Proof.
  induction d as [|[k v] d IH]; simpl; [done|].
  destruct (decide (k = key)); [done|]. intros Hg. by rewrite IH.
Qed.

Lemma od_get_del_eq d key : OrderedDict.get (OrderedDict.del d key) key = None.
Proof.
  induction d as [|[k v] d IH]; simpl; [done|].
  destruct (decide (k = key)) as [->|Hne]; [done|].
  simpl. by rewrite decide_False.
Qed.

Lemma od_get_del_ne d key k :
  key ≠ k → OrderedDict.get (OrderedDict.del d key) k = OrderedDict.get d k.
Proof.
  intros Hne. induction d as [|[k' v] d IH]; simpl; [done|].
  destruct (decide (k' = key)) as [->|Hne'].
  - by rewrite decide_False.
  - simpl. by rewrite IH.
Qed.

Lemma od_keys_del d key :
  OrderedDict.keys (OrderedDict.del d key)
  = filter (λ k, k ≠ key) (OrderedDict.keys d).
Proof.
  unfold OrderedDict.keys.
  induction d as [|[k v] d IH]; [done|].
  cbn [OrderedDict.del]. rewrite (fmap_cons fst), filter_cons. cbn [fst].
  destruct (decide (k = key)) as [->|Hne].
  - by rewrite decide_False; [|intros ?; done].
  - rewrite decide_True by done. rewrite fmap_cons. cbn [fst]. by f_equal.
Qed.

Lemma od_length_del_le d key : length (OrderedDict.del d key) ≤ length d.
Proof.
  induction d as [|[k v] d IH]; simpl; [done|].
  destruct (decide (k = key)); simpl; lia.
Qed.

Lemma od_length_del_present d key v :
  OrderedDict.wf d → OrderedDict.get d key = Some v →
  S (length (OrderedDict.del d key)) = length d.
Proof.
  unfold OrderedDict.wf, OrderedDict.keys.
  induction d as [|[k v'] d IH]; simpl; [done|].
  intros Hnd. apply NoDup_cons in Hnd as [Hk Hnd].
  destruct (decide (k = key)) as [->|Hne].
  - intros _. rewrite od_del_absent; [done|]. by apply od_get_None.
  - intros Hg. simpl. by rewrite IH.
Qed.

Lemma od_wf_del d key : OrderedDict.wf d → OrderedDict.wf (OrderedDict.del d key).
Proof.
  unfold OrderedDict.wf. rewrite od_keys_del. apply NoDup_filter.
Qed.

Lemma od_del_set d key v :
  OrderedDict.del (OrderedDict.set d key v) key = OrderedDict.del d key.
Proof.
  induction d as [|[k v'] d IH]; simpl.
  - by rewrite decide_True.
  - destruct (decide (k = key)) as [->|Hne]; simpl.
    + by rewrite decide_True.
    + by rewrite decide_False, IH.
Qed.

Lemma od_get_set_eq d key v :
  OrderedDict.get (OrderedDict.set d key v) key = Some v.
Proof.
  induction d as [|[k v'] d IH]; simpl.
  - by rewrite decide_True.
  - destruct (decide (k = key)) as [->|Hne]; simpl.
    + by rewrite decide_True.
    + by rewrite decide_False.
Qed.

(** The two statements that end [insert], taken together: the key is
    stored and becomes the first item; the other items keep their order. *)
Lemma od_set_move_to_end d key v :
  OrderedDict.move_to_end_first (OrderedDict.set d key v) key
  = Some ((key, v) :: OrderedDict.del d key).
Proof.
  unfold OrderedDict.move_to_end_first.
  by rewrite od_get_set_eq, od_del_set.
Qed.

Lemma od_popitem_last_snoc d (x : K * V) :
  OrderedDict.popitem_last (d ++ [x]) = Some (x, d).
Proof.
  induction d as [|kv d IH]; simpl; [done|]. by rewrite IH.
Qed.

Lemma od_wf_snoc d k v :
  OrderedDict.wf (d ++ [(k, v)]) → OrderedDict.wf d ∧ OrderedDict.get d k = None.
Proof.
  unfold OrderedDict.wf, OrderedDict.keys. rewrite fmap_app. simpl.
  intros Hnd. apply NoDup_app in Hnd as (Hd & Hdisj & _). split; [done|].
  apply od_get_None. intros Hin. apply (Hdisj _ Hin), list_elem_of_here.
Qed.

Lemma od_wf_cons_del d key v :
  OrderedDict.wf d → OrderedDict.wf ((key, v) :: OrderedDict.del d key).
Proof.
  intros Hwf. unfold OrderedDict.wf. simpl. apply NoDup_cons. split.
  - apply od_get_None, od_get_del_eq.
  - by apply od_wf_del.
Qed.
End ordered_dict_facts.

(** ** The expiring cache *)

Section expiring_cache_facts.
Context {K V : Type} `{EqDecision K}.
Import ExpiringCache.
Implicit Types (c : ExpiringCache.t K V) (key k : K) (v : V) (now : Time).

Lemma od_get_snoc_ne (d : OrderedDict.t K (record V)) kt rt k :
  k ≠ kt → OrderedDict.get (d ++ [(kt, rt)]) k = OrderedDict.get d k.
Proof.
  intros Hne. induction d as [|[k' r'] d IH]; simpl.
  - by rewrite decide_False.
  - by rewrite IH.
Qed.

Lemma insert_below_capacity now key v c :
  (size c < max_size c)%Z →
  insert now key v c
  = (Ret (),
     inc_write (set_entries
       ((key, Record_ (now + age_params c)%Z v) :: OrderedDict.del (entries c) key)
       c)).
Proof.
  intros Hlt. unfold insert.
  destruct (Z.leb_spec (max_size c) (size c)) as [?|_]; [lia|].
  by rewrite od_set_move_to_end.
Qed.

Lemma insert_at_capacity now key v c rest x :
  (max_size c ≤ size c)%Z → entries c = rest ++ [x] →
  insert now key v c
  = (Ret (),
     inc_write (set_entries
       ((key, Record_ (now + age_params c)%Z v) :: OrderedDict.del rest key)
       (inc_overflow c))).
Proof.
  intros Hge He. unfold insert.
  destruct (Z.leb_spec (max_size c) (size c)) as [_|?]; [|lia].
  simpl. rewrite He, od_popitem_last_snoc. simpl.
  by rewrite od_set_move_to_end.
Qed.

Lemma insert_empty_at_capacity now key v c :
  (max_size c ≤ size c)%Z → entries c = [] →
  insert now key v c = (Raise KeyError, inc_overflow c).
Proof.
  intros Hge He. unfold insert.
  destruct (Z.leb_spec (max_size c) (size c)) as [_|?]; [|lia].
  simpl. by rewrite He.
Qed.

(** [insert] returns whenever the cache holds something or has room. *)
Lemma insert_returns now key v c :
  (size c < max_size c)%Z ∨ entries c ≠ [] →
  (insert now key v c).1 = Ret ().
Proof.
  intros Hc. destruct (Z.lt_ge_cases (size c) (max_size c)) as [Hlt|Hge].
  - by rewrite insert_below_capacity.
  - destruct Hc as [?|Hne]; [lia|].
    destruct (exists_last Hne) as (rest & x & He).
    by rewrite (insert_at_capacity _ _ _ _ rest x).
Qed.

Lemma insert_max_size now key v c :
  max_size (insert now key v c).2 = max_size c.
Proof.
  destruct (Z.lt_ge_cases (size c) (max_size c)) as [Hlt|Hge].
  - by rewrite insert_below_capacity.
  - destruct (decide (entries c = [])) as [He|Hne].
    + by rewrite insert_empty_at_capacity.
    + destruct (exists_last Hne) as (rest & x & He).
      by rewrite (insert_at_capacity _ _ _ _ rest x).
Qed.

Lemma get_max_size now key c : max_size (get now key c).2 = max_size c.
Proof.
  unfold get. destruct (OrderedDict.get (entries c) key) as [r|]; [|done].
  by destruct (validity r <? now)%Z.
Qed.

Lemma get_size_le now key c : (size (get now key c).2 ≤ size c)%Z.
Proof.
  unfold get, size. destruct (OrderedDict.get (entries c) key) as [r|]; [|done].
  destruct (validity r <? now)%Z; simpl; [|done].
  pose proof (od_length_del_le (entries c) key). lia.
Qed.

Lemma get_entries_nil now key c :
  entries c = [] → entries (get now key c).2 = [].
Proof. intros He. unfold get. by rewrite He. Qed.

Lemma insert_bounded now key v c :
  inv c → (insert now key v c).1 = Ret () → bounded (insert now key v c).2.
Proof.
  unfold inv, bounded. intros Hinv.
  destruct (Z.lt_ge_cases (size c) (max_size c)) as [Hlt|Hge].
  - rewrite insert_below_capacity by done. intros _. unfold size in *. simpl.
    pose proof (od_length_del_le (entries c) key). lia.
  - destruct (decide (entries c = [])) as [He|Hne].
    + by rewrite insert_empty_at_capacity.
    + destruct (exists_last Hne) as (rest & x & He).
      rewrite (insert_at_capacity _ _ _ _ rest x) by done. intros _.
      destruct Hinv as [Hb|?]; [|done].
      unfold size in *. simpl. rewrite He, length_app in Hb, Hge. simpl in *.
      pose proof (od_length_del_le rest key). lia.
Qed.

Lemma step_bounded c (o : op) : bounded c → bounded (step c o).
Proof.
  intros Hb. destruct o as [now key|now key v]; simpl.
  - unfold bounded. rewrite get_max_size.
    pose proof (get_size_le now key c). unfold bounded in Hb. lia.
  - destruct (decide (entries c = [])) as [He|Hne].
    + destruct (Z.lt_ge_cases (size c) (max_size c)) as [Hlt|Hge].
      * apply insert_bounded; [by left|]. apply insert_returns. by left.
      * by rewrite insert_empty_at_capacity.
    + apply insert_bounded; [by left|]. apply insert_returns. by right.
Qed.

Lemma step_inv c (o : op) : inv c → inv (step c o).
Proof.
  intros [Hb|He]; [left; by apply step_bounded|].
  destruct o as [now key|now key v]; simpl.
  - right. by apply get_entries_nil.
  - destruct (Z.lt_ge_cases (size c) (max_size c)) as [Hlt|Hge].
    + left. apply insert_bounded; [by right|]. apply insert_returns. by left.
    + right. by rewrite insert_empty_at_capacity.
Qed.

Lemma run_inv (ops : list op) c : inv c → inv (run ops c).
Proof.
  revert c. induction ops as [|o ops IH]; intros c Hc; [done|].
  simpl. apply IH. by apply step_inv.
Qed.

Lemma run_bounded (ops : list op) c : bounded c → bounded (run ops c).
Proof.
  revert c. induction ops as [|o ops IH]; intros c Hc; [done|].
  simpl. apply IH. by apply step_bounded.
Qed.

Lemma run_max_size (ops : list op) c : max_size (run ops c) = max_size c.
Proof.
  revert c. induction ops as [|o ops IH]; intros c; [done|].
  simpl. rewrite IH. destruct o; simpl.
  - apply get_max_size.
  - apply insert_max_size.
Qed.

(** Keys stay unique: the entries of a cache are a dictionary. *)
Lemma get_wf now key c :
  OrderedDict.wf (entries c) → OrderedDict.wf (entries (get now key c).2).
Proof.
  intros Hwf. unfold get.
  destruct (OrderedDict.get (entries c) key) as [r|]; [|done].
  destruct (validity r <? now)%Z; [|done]. simpl. by apply od_wf_del.
Qed.

Lemma insert_wf now key v c :
  OrderedDict.wf (entries c) → OrderedDict.wf (entries (insert now key v c).2).
Proof.
  intros Hwf. destruct (Z.lt_ge_cases (size c) (max_size c)) as [Hlt|Hge].
  - rewrite insert_below_capacity by done. simpl. by apply od_wf_cons_del.
  - destruct (decide (entries c = [])) as [He|Hne].
    + by rewrite insert_empty_at_capacity.
    + destruct (exists_last Hne) as (rest & [kt rt] & He).
      rewrite (insert_at_capacity _ _ _ _ rest (kt, rt)) by done. simpl.
      rewrite He in Hwf. apply od_wf_snoc in Hwf as [Hwf _].
      by apply od_wf_cons_del.
Qed.

Lemma run_wf (ops : list op) c :
  OrderedDict.wf (entries c) → OrderedDict.wf (entries (run ops c)).
Proof.
  revert c. induction ops as [|o ops IH]; intros c Hc; [done|].
  simpl. apply IH. destruct o; simpl; [by apply get_wf | by apply insert_wf].
Qed.

Lemma run_snoc (ops : list op) (o : op) c :
  run (ops ++ [o]) c = step (run ops c) o.
Proof. unfold run. by rewrite foldl_app. Qed.
End expiring_cache_facts.

Section expiring_cache_claims.
Context {K V : Type} `{EqDecision K}.
Import ExpiringCache.
Implicit Types (c : ExpiringCache.t K V) (key k : K) (v : V) (now : Time).

Lemma get_hit_inv now key c v :
  (get now key c).1 = Some v →
  ∃ r, OrderedDict.get (entries c) key = Some r ∧ value r = v
       ∧ (now ≤ validity r)%Z.
Proof.
  unfold get. destruct (OrderedDict.get (entries c) key) as [r|]; [|done].
  destruct (Z.ltb_spec (validity r) now) as [?|Hle]; [done|].
  simpl. intros [= <-]. by exists r.
Qed.

(** C1, amended: an entry is expired when its [validity] is strictly before
    the instant of the call ([record["validity"] < pendulum.now()]).  For a
    key present in the cache with [validity < now], [get] deletes the entry,
    increments the miss counter and the expiration counter and returns
    absent; whenever a [get] returns a value, the entry it read has
    [now <= validity]; and at every instant up to and including [validity]
    itself the entry is served as a hit and stays in the cache. *)
Theorem get_purges_expired_entry now key c r :
  OrderedDict.get (entries c) key = Some r →
  (validity r < now)%Z →
  (get now key c).1 = None
  ∧ entries (get now key c).2 = OrderedDict.del (entries c) key
  ∧ OrderedDict.get (entries (get now key c).2) key = None
  ∧ metric_cache_get_miss (get now key c).2 = S (metric_cache_get_miss c)
  ∧ metric_cache_expirations (get now key c).2
    = S (metric_cache_expirations c)
  ∧ metric_cache_get_hit (get now key c).2 = metric_cache_get_hit c
  ∧ (∀ now' key' v',
      (get now' key' c).1 = Some v' →
      ∃ r', OrderedDict.get (entries c) key' = Some r' ∧ value r' = v'
            ∧ (now' ≤ validity r')%Z)
  ∧ (∀ now', (now' ≤ validity r)%Z →
       get now' key c = (Some (value r), inc_hit c))
  ∧ get (validity r) key c = (Some (value r), inc_hit c).
Proof.
  intros Hg Hlt.
  assert (∀ now', (now' ≤ validity r)%Z →
            get now' key c = (Some (value r), inc_hit c)) as Hserved.
  { intros now' Hle. unfold get. rewrite Hg.
    by destruct (Z.ltb_spec (validity r) now') as [?|_]; [lia|]. }
  unfold get at 1 2 3 4 5 6. rewrite Hg.
  destruct (Z.ltb_spec (validity r) now) as [_|?]; [|lia]. simpl.
  split_and!; [done | done | apply od_get_del_eq | done | done | done | | |].
  - intros now' key' v'. apply get_hit_inv.
  - exact Hserved.
  - by apply Hserved.
Qed.

(** C2: starting from a new cache, after any history of [get] and [insert]
    calls, once an [insert] has returned the number of entries is at most
    [max_size], and stays so through every later call. *)
Theorem size_bounded_after_insert name max age (ops later : list (@op K V))
    now key v :
  (insert now key v (run ops (new name max age))).1 = Ret () →
  (size (run later (insert now key v (run ops (new name max age))).2) ≤ max)%Z
  ∧ max_size (run later (insert now key v (run ops (new name max age))).2)
    = max.
Proof.
  intros Hret.
  assert (Hinv : inv (run ops (new name max age))).
  { apply run_inv. by right. }
  pose proof (insert_bounded _ _ _ _ Hinv Hret) as Hb.
  apply (run_bounded later) in Hb. unfold bounded in Hb.
  rewrite run_max_size, insert_max_size, run_max_size in *. done.
Qed.

Lemma inserts_snoc (l : list (Time * K * V)) x :
  inserts (l ++ [x]) = inserts l ++ [Insert x.1.1 x.1.2 x.2].
Proof. unfold inserts. by rewrite fmap_app. Qed.

Lemma take_pred_snoc {A} (l L : list A) a m :
  S m ≤ length L → l ++ [a] = take (S m) L → l = take m L.
Proof.
  intros Hle He.
  assert (take m (l ++ [a]) = take m L) as Ht.
  { rewrite He, take_take. f_equal. lia. }
  assert (length l + 1 = S m `min` length L) as Hlen.
  { apply (f_equal length) in He. by rewrite length_app, length_take in He. }
  rewrite take_app_length' in Ht by lia. done.
Qed.

(** Distinct keys inserted into a new cache of capacity [max >= 1]: the
    cache holds the [max] most recent keys, most recent first, and every
    insertion beyond the capacity counted one overflow. *)
Lemma inserts_distinct name max age (l : list (Time * K * V)) :
  (1 ≤ max)%Z → NoDup (l.*1.*2) →
  OrderedDict.keys (entries (run (inserts l) (new name max age)))
  = take (Z.to_nat max) (reverse (l.*1.*2))
  ∧ metric_cache_overflow (run (inserts l) (new name max age))
    = length l - Z.to_nat max
  ∧ metric_cache_write (run (inserts l) (new name max age)) = length l.
Proof.
  intros Hmax. induction l as [|[[t k] v] l IH] using rev_ind.
  { intros _. cbn. by destruct (Z.to_nat max). }
  rewrite !fmap_app. simpl. intros Hnd.
  apply NoDup_app in Hnd as (Hnd & Hfresh & _).
  destruct (IH Hnd) as (Hkeys & Hov & Hwr). clear IH.
  rewrite inserts_snoc, run_snoc. simpl.
  set (c := run (inserts l) (new name max age)) in *.
  assert (Hms : max_size c = max) by apply run_max_size.
  assert (Hk : OrderedDict.get (entries c) k = None).
  { apply od_get_None. rewrite Hkeys. intros Hin.
    apply subseteq_take in Hin. rewrite elem_of_reverse in Hin.
    apply (Hfresh _ Hin), list_elem_of_here. }
  assert (Hsz : length (entries c) = Z.to_nat max `min` length l).
  { transitivity (length (OrderedDict.keys (entries c))).
    - unfold OrderedDict.keys. by rewrite length_fmap.
    - rewrite Hkeys, length_take, length_reverse, !length_fmap. done. }
  rewrite reverse_app, length_app. simpl.
  destruct (decide (length l < Z.to_nat max)) as [Hlt|Hge].
  - rewrite insert_below_capacity by (unfold size; lia). simpl.
    rewrite od_del_absent by done. unfold OrderedDict.keys in *.
    rewrite Hkeys, Hov, Hwr.
    rewrite (take_ge (k :: _))
      by (simpl; rewrite length_reverse, !length_fmap; lia).
    rewrite take_ge by (rewrite length_reverse, !length_fmap; lia).
    repeat split; lia.
  - assert (Hne : entries c ≠ []).
    { intros He. rewrite He in Hsz. simpl in Hsz. lia. }
    destruct (exists_last Hne) as (rest & [ky ry] & He).
    rewrite (insert_at_capacity _ _ _ _ rest (ky, ry))
      by (done || unfold size; lia).
    simpl. rewrite Hov, Hwr.
    assert (Hrest : OrderedDict.get rest k = None).
    { apply od_get_None. intros Hin. apply od_get_None in Hk. apply Hk.
      rewrite He. unfold OrderedDict.keys. rewrite fmap_app.
      apply elem_of_app. by left. }
    rewrite od_del_absent by done.
    replace (Z.to_nat max) with (S (Z.to_nat max - 1)) at 1 by lia.
    cbn [take]. unfold OrderedDict.keys in *.
    rewrite He, fmap_app in Hkeys. simpl in Hkeys.
    replace (Z.to_nat max) with (S (Z.to_nat max - 1)) in Hkeys by lia.
    apply take_pred_snoc in Hkeys;
      [|rewrite length_reverse, !length_fmap; lia]. rewrite Hkeys.
    repeat split; lia.
Qed.

(** C3, amended: for every insert into a non-empty cache whose size is at
    least [max_size], exactly one existing entry is evicted, the one at the
    tail of the recency order, whatever the expiry instants are, and the
    overflow counter increments once; with [max_size >= 1], inserting
    [max_size + 1] distinct keys in order into a new cache leaves exactly
    [max_size] entries, the first key inserted being the one evicted, and
    one overflow counted. *)
Theorem insert_at_capacity_evicts_tail :
  (∀ now key v c rest kt rt,
      OrderedDict.wf (entries c) →
      entries c = rest ++ [(kt, rt)] →
      (max_size c ≤ size c)%Z →
      (insert now key v c).1 = Ret ()
      ∧ entries (insert now key v c).2
        = (key, Record_ (now + age_params c)%Z v) :: OrderedDict.del rest key
      ∧ metric_cache_overflow (insert now key v c).2
        = S (metric_cache_overflow c)
      ∧ ∀ k, k ≠ key →
          OrderedDict.get (entries (insert now key v c).2) k
          = (if decide (k = kt) then None
             else OrderedDict.get (entries c) k))
  ∧ (∀ name max age (x : Time * K * V) (l : list (Time * K * V)),
      (1 ≤ max)%Z →
      NoDup ((x :: l).*1.*2) →
      length l = Z.to_nat max →
      OrderedDict.keys (entries (run (inserts (x :: l)) (new name max age)))
      = reverse (l.*1.*2)
      ∧ size (run (inserts (x :: l)) (new name max age)) = max
      ∧ (x.1.2 ∉ OrderedDict.keys
                   (entries (run (inserts (x :: l)) (new name max age))))
      ∧ metric_cache_overflow (run (inserts (x :: l)) (new name max age))
        = 1).
Proof.
  split.
  - intros now key v c rest kt rt Hwf He Hge.
    rewrite (insert_at_capacity _ _ _ _ rest (kt, rt)) by done. simpl.
    repeat split. intros k Hk. rewrite decide_False by done.
    rewrite od_get_del_ne by done. rewrite He in Hwf |- *.
    apply od_wf_snoc in Hwf as [_ Hkt].
    destruct (decide (k = kt)) as [->|Hne]; [done|].
    by rewrite od_get_snoc_ne.
  - intros name max age x l Hmax Hnd Hlen.
    destruct (inserts_distinct name max age (x :: l) Hmax Hnd)
      as (Hkeys & Hov & _).
    rewrite !fmap_cons, reverse_cons in Hkeys.
    rewrite take_app_length' in Hkeys
      by (by rewrite length_reverse, !length_fmap).
    rewrite Hkeys, Hov. repeat split.
    + unfold size. unfold OrderedDict.keys in Hkeys.
      apply (f_equal length) in Hkeys.
      rewrite length_reverse, !length_fmap in Hkeys. rewrite Hkeys. lia.
    + rewrite elem_of_reverse. rewrite !fmap_cons in Hnd.
      by apply NoDup_cons in Hnd as [? _].
    + rewrite length_cons. lia.
Qed.

(** C4, amended: for every key already present in the cache, inserting it
    again returns, refreshes its expiry to [now + age_params] and makes it
    the first entry of the recency order.  The size is unchanged when the
    cache is below capacity or the key is the tail entry; in a full cache
    whose tail is another key, the insertion path evicts that tail entry and
    the size decreases by one. *)
Theorem reinsert_refreshes_entry now key v c r :
  OrderedDict.wf (entries c) →
  OrderedDict.get (entries c) key = Some r →
  (insert now key v c).1 = Ret ()
  ∧ head (entries (insert now key v c).2)
    = Some (key, Record_ (now + age_params c)%Z v)
  ∧ OrderedDict.get (entries (insert now key v c).2) key
    = Some (Record_ (now + age_params c)%Z v)
  ∧ ((size c < max_size c)%Z →
      entries (insert now key v c).2
      = (key, Record_ (now + age_params c)%Z v)
          :: OrderedDict.del (entries c) key
      ∧ size (insert now key v c).2 = size c)
  ∧ ((max_size c ≤ size c)%Z →
      ∃ rest kt rt,
        entries c = rest ++ [(kt, rt)]
        ∧ entries (insert now key v c).2
          = (key, Record_ (now + age_params c)%Z v) :: OrderedDict.del rest key
        ∧ size (insert now key v c).2
          = if decide (kt = key) then size c else (size c - 1)%Z).
Proof.
  intros Hwf Hg.
  assert (Hne : entries c ≠ []) by (intros He; by rewrite He in Hg).
  destruct (exists_last Hne) as (rest & [kt rt] & He).
  destruct (Z.lt_ge_cases (size c) (max_size c)) as [Hlt|Hge].
  - rewrite insert_below_capacity by done. simpl.
    rewrite decide_True by done. split_and!; [done..| |intros ?; lia].
    intros _. split; [done|]. unfold size. simpl.
    by rewrite (od_length_del_present _ _ r).
  - rewrite (insert_at_capacity _ _ _ _ rest (kt, rt)) by done. simpl.
    rewrite decide_True by done. split_and!; [done..|intros ?; lia|].
    intros _. exists rest, kt, rt. split_and!; [done..|].
    unfold size. simpl. rewrite He, length_app. simpl.
    rewrite He in Hwf, Hg. apply od_wf_snoc in Hwf as [Hwf Hkt].
    destruct (decide (kt = key)) as [->|Hk].
    + rewrite od_del_absent by done. lia.
    + rewrite od_get_snoc_ne in Hg by done.
      rewrite <- (od_length_del_present rest key r) by done. lia.
Qed.
End expiring_cache_claims.

(** Closed decidable side conditions (distinct keys of a concrete list). *)
Ltac by_decision :=
  unfold OrderedDict.wf; apply (bool_decide_unpack _); vm_compute; exact I.

Section expiring_cache_examples.
#[local] Open Scope Z_scope.

(** C1 as stated fails at the instant of expiry: with [validity = 10] a
    [get] at [now = 10] is a hit and returns the stored value. *)
Lemma get_at_expiry_instant_returns_value :
  OrderedDict.get (ExpiringCache.entries Samples.one_entry) "k"
  = Some (ExpiringCache.Record_ 10 7%Z)
  ∧ (ExpiringCache.validity (ExpiringCache.Record_ 10 7%Z) ≤ 10)%Z
  ∧ ExpiringCache.get 10 "k" Samples.one_entry
    = (Some 7%Z, ExpiringCache.inc_hit Samples.one_entry).
Proof. split_and!; [reflexivity | simpl; lia | reflexivity]. Qed.

Lemma get_purges_expired_entry_witness :
  (ExpiringCache.get 11 "k" Samples.one_entry).1 = None
  ∧ ExpiringCache.entries (ExpiringCache.get 11 "k" Samples.one_entry).2 = []
  ∧ ExpiringCache.get 10 "k" Samples.one_entry
    = (Some 7%Z, ExpiringCache.inc_hit Samples.one_entry).
Proof.
  destruct (get_purges_expired_entry 11%Z "k" Samples.one_entry
              (ExpiringCache.Record_ 10 7%Z))
    as (H1 & H2 & _ & _ & _ & _ & _ & _ & H3).
  - reflexivity.
  - reflexivity.
  - split_and!; [exact H1 | exact H2 | exact H3].
Defined.

Lemma size_bounded_after_insert_witness :
  (ExpiringCache.size
     (ExpiringCache.run [ExpiringCache.Get 9 "a"; ExpiringCache.Insert 3 "c" 5%Z]
        (ExpiringCache.insert 2 "b" 4%Z
           (ExpiringCache.run [ExpiringCache.Insert 1 "a" 3%Z]
              (ExpiringCache.new "forecasts" 1 10))).2) ≤ 1)%Z.
Proof.
  apply (size_bounded_after_insert "forecasts" 1 10
           [ExpiringCache.Insert 1%Z "a" 3%Z]
           [ExpiringCache.Get 9%Z "a"; ExpiringCache.Insert 3%Z "c" 5%Z]
           2%Z "b" 4%Z).
  reflexivity.
Defined.

(** C3 as stated fails for a cache that can hold nothing: the size 0 is at
    least [max_size = 0], there is no entry to evict, [popitem] raises
    [KeyError] and the key is not stored. *)
Lemma insert_into_zero_capacity_raises :
  (ExpiringCache.max_size Samples.no_room
   ≤ ExpiringCache.size Samples.no_room)%Z
  ∧ ExpiringCache.insert 0 "a" 1%Z Samples.no_room
    = (Raise KeyError, ExpiringCache.inc_overflow Samples.no_room)
  ∧ ExpiringCache.entries (ExpiringCache.insert 0 "a" 1%Z Samples.no_room).2
    = [].
Proof. split_and!; [vm_compute; discriminate | reflexivity | reflexivity]. Qed.

Lemma insert_at_capacity_evicts_tail_witness :
  OrderedDict.keys
    (ExpiringCache.entries (ExpiringCache.insert 2 "c" 3%Z Samples.full_ab).2)
  = ["c"; "b"]
  ∧ OrderedDict.keys
      (ExpiringCache.entries
         (ExpiringCache.run
            (ExpiringCache.inserts [(0, "a", 1); (1, "b", 2); (2, "c", 3)]%Z)
            (ExpiringCache.new "forecasts" 2 10)))
    = ["c"; "b"].
Proof.
  destruct (@insert_at_capacity_evicts_tail string Z _) as [H1 H2]. split.
  - destruct (H1 2%Z "c" 3%Z Samples.full_ab
                [("b", ExpiringCache.Record_ 11 2%Z)] "a"
                (ExpiringCache.Record_ 10 1%Z)) as (_ & -> & _).
    + by_decision.
    + reflexivity.
    + vm_compute. discriminate.
    + reflexivity.
  - destruct (H2 "forecasts" 2%Z 10%Z (0, "a", 1)%Z [(1, "b", 2); (2, "c", 3)]%Z)
      as (-> & _).
    + lia.
    + by_decision.
    + reflexivity.
    + reflexivity.
Defined.

(** C4 as stated fails in a full cache: re-inserting ["b"] into the full
    cache [["b"; "a"]] of capacity 2 evicts ["a"], so the size drops to 1. *)
Lemma reinsert_into_full_cache_shrinks :
  OrderedDict.keys (ExpiringCache.entries Samples.full_ab) = ["b"; "a"]
  ∧ ExpiringCache.size Samples.full_ab = 2%Z
  ∧ (ExpiringCache.insert 2 "b" 3%Z Samples.full_ab).1 = Ret ()
  ∧ OrderedDict.keys
      (ExpiringCache.entries (ExpiringCache.insert 2 "b" 3%Z Samples.full_ab).2)
    = ["b"]
  ∧ ExpiringCache.size (ExpiringCache.insert 2 "b" 3%Z Samples.full_ab).2
    = 1%Z.
Proof. split_and!; reflexivity. Qed.

Lemma reinsert_refreshes_entry_witness :
  head (ExpiringCache.entries (ExpiringCache.insert 5 "a" 9%Z Samples.full_ab).2)
  = Some ("a", ExpiringCache.Record_ 15 9%Z).
Proof.
  destruct (reinsert_refreshes_entry 5%Z "a" 9%Z Samples.full_ab
              (ExpiringCache.Record_ 10 1%Z)) as (_ & H2 & _).
  - by_decision.
  - reflexivity.
  - exact H2.
Defined.
End expiring_cache_examples.

(** ** Labelled counters *)

Section counter_facts.
Context `{Countable L}.
Implicit Types (m : gmap L nat) (l : L).

Lemma count_inc_label_eq m l : count (inc_label l m) l = S (count m l).
Proof. unfold count at 1, inc_label. by rewrite lookup_insert_eq. Qed.

Lemma count_inc_label_ne m l l' :
  l ≠ l' → count (inc_label l m) l' = count m l'.
Proof. intros Hne. unfold count, inc_label. by rewrite lookup_insert_ne. Qed.

Lemma count_inc_label_le m l l' : count m l' ≤ count (inc_label l m) l'.
Proof.
  destruct (decide (l = l')) as [->|Hne].
  - rewrite count_inc_label_eq. lia.
  - by rewrite count_inc_label_ne.
Qed.
End counter_facts.

(** ** The current value of a series and the unit table *)

Section extraction_claims.
Context (py : Library).
#[local] Open Scope Z_scope.
#[local] Set Warnings "-inexact-float".

Lemma first_current_skips now (pre rest : list Json.t) :
  Forall (ended py now) pre →
  first_current py now (pre ++ rest) = first_current py now rest.
Proof.
  induction 1 as [|p pre (ends & He & Hle) _ IH]; [done|].
  rewrite <- app_comm_cons. cbn [first_current]. unfold interval_end in He.
  destruct (Json.getitem p "validTime") as [validTime|]; [|done].
  simpl in He |- *. rewrite He. simpl.
  by destruct (Z.ltb_spec now ends); [lia|].
Qed.

Lemma first_current_current now (r : Json.t) (rest : list Json.t) ends :
  interval_end py r = Ret ends → now < ends →
  first_current py now (r :: rest) = Json.getitem r "value".
Proof.
  intros He Hlt. cbn [first_current]. unfold interval_end in He.
  destruct (Json.getitem r "validTime") as [validTime|]; [|done].
  simpl in He |- *. rewrite He. simpl.
  by destruct (Z.ltb_spec now ends); [|lia].
Qed.

(** C9: [fetch_current] returns the value of the first reading, in the
    order of the series, whose interval ends strictly after [now], and
    absent when there is none (an empty series, or every interval ended at
    or before [now]); on a reading that ended followed by one that has not,
    with values 1 and 2, it returns 2. *)
Theorem fetch_current_first_unexpired now (data : Json.t)
    (pre post : list Json.t) (r : Json.t) (ends : Time)
    (uom t1 t2 : Json.t) (e1 e2 : Time) :
  (Json.getitem data "values" = Ret (Json.Array (pre ++ r :: post)) →
   Forall (ended py now) pre →
   interval_end py r = Ret ends → now < ends →
   fetch_current py now data = Json.getitem r "value")
  ∧ (Json.getitem data "values" = Ret (Json.Array pre) →
     Forall (ended py now) pre →
     fetch_current py now data = Ret Json.Null)
  ∧ (pendulum_end py t1 = Ret e1 → pendulum_end py t2 = Ret e2 →
     e1 ≤ now → now < e2 →
     fetch_current py now
       (Json.Object
          [("uom", uom);
           ("values",
            Json.Array
              [Json.Object [("validTime", t1); ("value", Json.Int 1)];
               Json.Object [("validTime", t2); ("value", Json.Int 2)]])])
     = Ret (Json.Int 2)).
Proof.
  split_and!.
  - intros Hv Hpre He Hlt. unfold fetch_current. rewrite Hv. simpl.
    rewrite first_current_skips by done. by eapply first_current_current.
  - intros Hv Hpre. unfold fetch_current. rewrite Hv. simpl.
    rewrite <- (app_nil_r pre). by rewrite first_current_skips.
  - intros H1 H2 Hle Hlt. unfold fetch_current. simpl.
    rewrite H1. simpl. destruct (Z.ltb_spec now e1); [lia|].
    rewrite H2. simpl. by destruct (Z.ltb_spec now e2); [|lia].
Qed.

Lemma prom_units_unknown unit :
  unit ∉ OrderedDict.keys prom_units → OrderedDict.get prom_units unit = None.
Proof. apply od_get_None. Qed.

(** C10: [convert_unit "percent"] yields a converter mapping 50 to 0.5,
    [convert_unit "mm"] one mapping 10 to 0.01, neither counting a failure,
    whether the number is the JSON integer or the JSON float; a tag outside
    the table returns absent and increments the conversion-failure counter
    labelled with that tag. *)
Theorem convert_unit_table (w : World) (unit : string) :
  (∃ u, convert_unit "percent" w = (Ret (Some u), w)
        ∧ UnitConversion.convert u (Json.Int 50) = Ret (Json.Float 0.5)
        ∧ UnitConversion.convert u (Json.Float 50) = Ret (Json.Float 0.5))
  ∧ (∃ u, convert_unit "mm" w = (Ret (Some u), w)
          ∧ UnitConversion.convert u (Json.Int 10) = Ret (Json.Float 0.01)
          ∧ UnitConversion.convert u (Json.Float 10) = Ret (Json.Float 0.01))
  ∧ (unit ∉ ["degC"; "percent"; "m"; "degree_(angle)"; "m_s-1"; "mm"] →
       convert_unit unit w = (Ret None, inc_UNIT_CONVERSION_FAILURE unit w)
       ∧ count (UNIT_CONVERSION_FAILURE (convert_unit unit w).2) unit
         = S (count (UNIT_CONVERSION_FAILURE w) unit)).
Proof.
  split_and!.
  - eexists. split_and!; reflexivity.
  - eexists. split_and!; reflexivity.
  - intros Hunit. apply prom_units_unknown in Hunit.
    unfold convert_unit. rewrite Hunit. split; [done|].
    simpl. apply count_inc_label_eq.
Qed.

(** The exceptions of the conversions: none of them is a [KeyError]. *)
Lemma round_to_float_raises m e x :
  round_to_float m e = Raise x → x = OverflowError.
Proof. unfold round_to_float. case_match; congruence. Qed.

Lemma truediv_raises x d e :
  truediv x d = Raise e → e = TypeError ∨ e = OverflowError.
Proof.
  unfold truediv, int_truediv, float_of_int.
  destruct x; try (intros [= <-]; by left);
    (destruct (round_to_float _ _) as [rounded|e'] eqn:Hr; simpl; [done|]);
    intros [= <-]; right; by eapply round_to_float_raises.
Qed.

Lemma py_float_raises x e :
  py_float py x = Raise e →
  e = TypeError ∨ e = OverflowError ∨ e = ValueError.
Proof.
  unfold py_float, float_of_int.
  destruct x; try (intros [= <-]; by left); try done.
  - intros Hr%round_to_float_raises. by right; left.
  - case_match; [done|]. intros [= <-]. by right; right.
Qed.

Lemma convert_raises u unit x e :
  OrderedDict.get prom_units u = Some unit →
  UnitConversion.convert unit x = Raise e →
  e = TypeError ∨ e = OverflowError.
Proof.
  unfold prom_units. simpl.
  repeat (case_decide; [intros [= <-]; simpl;
                        first [done | apply truediv_raises]|]).
  done.
Qed.

Lemma conversion_raises u unit x e :
  OrderedDict.get prom_units u = Some unit →
  (converted ← UnitConversion.convert unit x; py_float py converted)
  = Raise e →
  e = TypeError ∨ e = OverflowError ∨ e = ValueError.
Proof.
  intros Hu.
  destruct (UnitConversion.convert unit x) as [converted|e'] eqn:Hc; simpl.
  - apply py_float_raises.
  - intros [= <-]. destruct (convert_raises _ _ _ _ Hu Hc); auto.
Qed.
End extraction_claims.

Section extraction_examples.
#[local] Open Scope Z_scope.
#[local] Set Warnings "-inexact-float".

(** An integer is divided as an integer and rounded once, which above 2^53
    differs from the division of the nearest float; beyond the range of a
    float, the division of an integer and its conversion raise; only
    numbers can be divided. *)
Lemma truediv_examples :
  truediv (Json.Int 9007199254740993) 100
  = Ret (Json.Float 90071992547409.94)
  ∧ truediv (Json.Float 9007199254740993) 100
    = Ret (Json.Float 90071992547409.92)
  ∧ truediv (Json.Int (10 ^ 400)) 100 = Raise OverflowError
  ∧ float_of_int (10 ^ 400) = Raise OverflowError
  ∧ float_of_int (2 ^ 53 + 1) = Ret 9007199254740992%float
  ∧ truediv (Json.Bool true) 100 = Ret (Json.Float 0.01)
  ∧ truediv (Json.Str "50") 100 = Raise TypeError
  ∧ truediv Json.Null 100 = Raise TypeError.
Proof. split_and!; reflexivity. Qed.

Lemma fetch_current_first_unexpired_witness :
  fetch_current Samples.python 100
    (Samples.series "unit:degC"
       [Samples.reading Samples.before_noon (Json.Int 1);
        Samples.reading Samples.after_noon (Json.Int 2);
        Samples.reading Samples.after_noon (Json.Int 3)])
  = Ret (Json.Int 2)
  ∧ fetch_current Samples.python 100
      (Samples.series "unit:degC"
         [Samples.reading Samples.before_noon (Json.Int 1)])
    = Ret Json.Null.
Proof.
  split.
  - destruct (fetch_current_first_unexpired Samples.python 100
                (Samples.series "unit:degC"
                   [Samples.reading Samples.before_noon (Json.Int 1);
                    Samples.reading Samples.after_noon (Json.Int 2);
                    Samples.reading Samples.after_noon (Json.Int 3)])
                [Samples.reading Samples.before_noon (Json.Int 1)]
                [Samples.reading Samples.after_noon (Json.Int 3)]
                (Samples.reading Samples.after_noon (Json.Int 2))
                3600000000 Json.Null Json.Null Json.Null 0 0) as (H1 & _).
    rewrite H1; [reflexivity | reflexivity | | reflexivity | reflexivity].
    apply Forall_singleton. exists (-60000000). split; [reflexivity|].
    vm_compute. discriminate.
  - destruct (fetch_current_first_unexpired Samples.python 100
                (Samples.series "unit:degC"
                   [Samples.reading Samples.before_noon (Json.Int 1)])
                [Samples.reading Samples.before_noon (Json.Int 1)] []
                Json.Null 0 Json.Null Json.Null Json.Null 0 0)
      as (_ & H2 & _).
    apply H2; [reflexivity|].
    apply Forall_singleton. exists (-60000000). split; [reflexivity|].
    vm_compute. discriminate.
Defined.

Lemma convert_unit_table_witness :
  (convert_unit "unknown_unit" initial_world).1 = Ret None
  ∧ count (UNIT_CONVERSION_FAILURE
             (convert_unit "unknown_unit" initial_world).2) "unknown_unit"
    = 1%nat.
Proof.
  destruct (convert_unit_table initial_world "unknown_unit")
    as (_ & _ & Hu).
  destruct Hu as [-> ->].
  - by_decision.
  - split; reflexivity.
Defined.
End extraction_examples.

(** ** The grid resolver *)

Section resolver_claims.
Implicit Types (w : World) (latlong : LatLong.t).





(** A memoized argument is answered from the memo: no request is sent and
    no counter moves. *)
Lemma get_gridpoint_location_hit remote latlong w b :
  OrderedDict.get (gridpoint_memo w) latlong = Some b →
  get_gridpoint_location remote latlong w
  = (Ret b,
     set_gridpoint_memo
       ((latlong, b) :: OrderedDict.del (gridpoint_memo w) latlong) w).
Proof.
  intros Hmemo. unfold get_gridpoint_location, lru_cache.
  by rewrite Hmemo.
Qed.


End resolver_claims.



(** ** The forecast pipeline *)

Section measure_loop_facts.
Context (py : Library).
Implicit Types (w : World) (m : Measure.t) (reg : Registry).
#[local] Opaque prom_units.

Lemma gauge_set_registered name (v : Json.t) reg :
  name ∉ reg.*1 →
  gauge_set py name v (reg ++ [(name, 0%float)])
  = (f ← py_float py v; Ret (reg ++ [(name, f)])).
Proof.
  intros Hfresh. unfold gauge_set.
  destruct (py_float py v) as [f|e]; [|done].
  unfold mbind, outcome_bind, mret, outcome_ret. f_equal.
  rewrite fmap_app. simpl. rewrite decide_True by done. f_equal.
  induction reg as [|[n x] reg IH]; [done|].
  rewrite !fmap_cons in *. apply not_elem_of_cons in Hfresh as [Hne Hfresh].
  simpl. rewrite decide_False by done. f_equal. by apply IH.
Qed.

Lemma process_measure_unfold now data m reg w :
  process_measure py now data m reg w
  = match current_value py now data m with
    | Raise e => failed e reg (noted py now data m w)
    | Ret value =>
        match OrderedDict.get prom_units (Measure.unit m) with
        | Some unit =>
            if Json.is_None value then (Ret reg, noted py now data m w)
            else if bool_decide (gauge_name m unit ∈ reg.*1)
            then failed ValueError reg (noted py now data m w)
            else
              match (converted ← UnitConversion.convert unit value;
                     py_float py converted) with
              | Raise e => failed e reg (noted py now data m w)
              | Ret v =>
                  (Ret (reg ++ [(gauge_name m unit, v)]),
                   noted py now data m w)
              end
        | None => (Ret reg, noted py now data m w)
        end
    end.
Proof.
  unfold process_measure, current_value, noted, series_of, failed,
    try_except_KeyError, count_exceptions, bind, lift, modify, ret,
    convert_unit, note_mismatch, note_no_value, note_no_unit, Gauge.
  destruct (Json.getitem data "properties") as [props|e]; simpl;
    [|by destruct e].
  destruct (Json.getitem props (Measure.key m)) as [records|e]; simpl;
    [|by destruct e].
  destruct (Json.get records "uom") as [uom|e]; simpl; [|by destruct e].
  destruct (Json.eq_str uom _); simpl;
    (destruct (fetch_current py now records) as [value|e]; simpl;
       [|by destruct e]);
    (destruct (OrderedDict.get prom_units (Measure.unit m)) as [unit|];
       simpl);
    destruct (Json.is_None value); simpl; try done;
    case_bool_decide; simpl; try done;
    (destruct (UnitConversion.convert unit value) as [converted|e]; simpl;
       [|by destruct e]);
    rewrite gauge_set_registered by done;
    (destruct (py_float py converted) as [v|e]; simpl; [done | by destruct e]).
Qed.

Lemma counters_grow_refl w : counters_grow w w.
Proof. by constructor. Qed.

Lemma counters_grow_trans w1 w2 w3 :
  counters_grow w1 w2 → counters_grow w2 w3 → counters_grow w1 w3.
Proof.
  intros [] []. constructor; try congruence; try lia.
  - intros l. etrans; eauto.
  - intros l. etrans; eauto.
  - intros l. etrans; eauto.
Qed.

Lemma grow_inc_processing w : counters_grow w (inc_FORECAST_PROCESSING_FAILURES w).
Proof. constructor; simpl; auto. Qed.

Lemma grow_note_mismatch m uom w :
  counters_grow w (note_mismatch py m uom w).
Proof.
  unfold note_mismatch. destruct (Json.eq_str uom _); [apply counters_grow_refl|].
  constructor; simpl; auto. intros l. apply count_inc_label_le.
Qed.

Lemma grow_note_no_value m value w :
  counters_grow w (note_no_value m value w).
Proof.
  unfold note_no_value. destruct (Json.is_None value);
    [|apply counters_grow_refl].
  constructor; simpl; auto. intros l. apply count_inc_label_le.
Qed.

Lemma grow_note_no_unit m w : counters_grow w (note_no_unit m w).
Proof.
  unfold note_no_unit.
  destruct (OrderedDict.get prom_units (Measure.unit m));
    [apply counters_grow_refl|].
  constructor; simpl; auto. intros l. apply count_inc_label_le.
Qed.

Lemma grow_noted now data m w : counters_grow w (noted py now data m w).
Proof.
  unfold noted. destruct (series_of data m) as [[records uom]|e];
    [|apply counters_grow_refl].
  destruct (fetch_current py now records) as [value|e];
    [|apply grow_note_mismatch].
  eapply counters_grow_trans; [apply grow_note_mismatch|].
  eapply counters_grow_trans; [apply grow_note_no_value|].
  apply grow_note_no_unit.
Qed.

Lemma grow_failed e reg w : counters_grow w (failed e reg w).2.
Proof. apply grow_inc_processing. Qed.

(** The state a turn ends in. *)
Lemma process_measure_state now data m reg w :
  (process_measure py now data m reg w).2 = noted py now data m w
  ∨ (process_measure py now data m reg w).2
    = inc_FORECAST_PROCESSING_FAILURES (noted py now data m w).
Proof.
  rewrite process_measure_unfold.
  destruct (current_value py now data m) as [value|e]; [|by right].
  destruct (OrderedDict.get prom_units (Measure.unit m)) as [unit|];
    [|by left].
  destruct (Json.is_None value); [by left|].
  case_bool_decide; [by right|].
  destruct (converted ← UnitConversion.convert unit value;
            py_float py converted); [by left | by right].
Qed.

Lemma process_measure_grows now data m reg w :
  counters_grow w (process_measure py now data m reg w).2.
Proof.
  destruct (process_measure_state now data m reg w) as [-> | ->].
  - apply grow_noted.
  - eapply counters_grow_trans; [apply grow_noted | apply grow_inc_processing].
Qed.

Lemma process_measures_grows clock data ms i reg w :
  counters_grow w (process_measures py clock i data ms reg w).2.
Proof.
  revert i reg w. induction ms as [|m ms IH]; intros i reg w.
  { apply counters_grow_refl. }
  cbn [process_measures]. unfold bind.
  pose proof (process_measure_grows (clock i) data m reg w) as Hstep.
  destruct (process_measure py (clock i) data m reg w) as [[reg'|e] w'];
    [|done].
  eapply counters_grow_trans; [exact Hstep | apply IH].
Qed.

(** What a turn leaves in the failure counters. *)
Lemma noted_processing now data m w :
  FORECAST_PROCESSING_FAILURES (noted py now data m w)
  = FORECAST_PROCESSING_FAILURES w.
Proof.
  unfold noted, note_no_unit, note_no_value, note_mismatch.
  repeat case_match; done.
Qed.

Lemma noted_mismatch now data m w records uom :
  series_of data m = Ret (records, uom) →
  FORECAST_MISMATCHED_UNIT (noted py now data m w)
  = FORECAST_MISMATCHED_UNIT (note_mismatch py m uom w).
Proof.
  intros Hs. unfold noted, note_no_unit, note_no_value. rewrite Hs.
  repeat case_match; done.
Qed.

Lemma noted_value now data m w value :
  current_value py now data m = Ret value →
  FETCH_CURRENT_VALUE_FAILURE (noted py now data m w)
  = FETCH_CURRENT_VALUE_FAILURE (note_no_value m value w).
Proof.
  unfold current_value, noted.
  destruct (series_of data m) as [[records uom]|e]; [|done]. simpl.
  intros ->. unfold note_no_unit, note_no_value, note_mismatch.
  repeat case_match; done.
Qed.

Lemma noted_unit now data m w value :
  current_value py now data m = Ret value →
  UNIT_CONVERSION_FAILURE (noted py now data m w)
  = UNIT_CONVERSION_FAILURE (note_no_unit m w).
Proof.
  unfold current_value, noted.
  destruct (series_of data m) as [[records uom]|e]; [|done]. simpl.
  intros ->. unfold note_no_unit, note_no_value, note_mismatch.
  repeat case_match; done.
Qed.

Lemma process_measure_labels now data m reg w :
  FORECAST_MISMATCHED_UNIT (process_measure py now data m reg w).2
  = FORECAST_MISMATCHED_UNIT (noted py now data m w)
  ∧ FETCH_CURRENT_VALUE_FAILURE (process_measure py now data m reg w).2
    = FETCH_CURRENT_VALUE_FAILURE (noted py now data m w)
  ∧ UNIT_CONVERSION_FAILURE (process_measure py now data m reg w).2
    = UNIT_CONVERSION_FAILURE (noted py now data m w).
Proof. by destruct (process_measure_state now data m reg w) as [-> | ->]. Qed.

Lemma key_missing_current_value now data m :
  key_missing data m → current_value py now data m = Raise KeyError.
Proof.
  unfold current_value, series_of.
  intros [-> | (props & -> & Hk)]; [done|]. simpl. by rewrite Hk.
Qed.

(** A turn that a missing key ends, a turn without a current value, and a
    turn without a conversion: the registry stays as it is and the loop
    goes on. *)
Lemma process_measure_KeyError now data m reg w :
  current_value py now data m = Raise KeyError →
  process_measure py now data m reg w
  = (Ret reg, inc_FORECAST_PROCESSING_FAILURES (noted py now data m w)).
Proof. intros Hc. by rewrite process_measure_unfold, Hc. Qed.

Lemma process_measure_no_value now data m reg w :
  current_value py now data m = Ret Json.Null →
  process_measure py now data m reg w = (Ret reg, noted py now data m w)
  ∧ count (FETCH_CURRENT_VALUE_FAILURE (noted py now data m w))
      (Measure.key m)
    = S (count (FETCH_CURRENT_VALUE_FAILURE w) (Measure.key m)).
Proof.
  intros Hc. rewrite process_measure_unfold, Hc. split.
  - by destruct (OrderedDict.get prom_units (Measure.unit m)).
  - rewrite (noted_value _ _ _ _ _ Hc). simpl. apply count_inc_label_eq.
Qed.

Lemma process_measure_no_unit now data m reg w value :
  current_value py now data m = Ret value →
  OrderedDict.get prom_units (Measure.unit m) = None →
  process_measure py now data m reg w = (Ret reg, noted py now data m w)
  ∧ count (UNIT_CONVERSION_FAILURE (noted py now data m w)) (Measure.unit m)
    = S (count (UNIT_CONVERSION_FAILURE w) (Measure.unit m)).
Proof.
  intros Hc Hu. rewrite process_measure_unfold, Hc, Hu. split; [done|].
  rewrite (noted_unit _ _ _ _ _ Hc). unfold note_no_unit. rewrite Hu. simpl.
  apply count_inc_label_eq.
Qed.

Lemma process_measure_mismatch now data m reg w records uom :
  series_of data m = Ret (records, uom) →
  Json.eq_str uom ("unit:" +:+ Measure.unit m) = false →
  count (FORECAST_MISMATCHED_UNIT (process_measure py now data m reg w).2)
    (Measure.key m, py_str py uom)
  = S (count (FORECAST_MISMATCHED_UNIT w) (Measure.key m, py_str py uom)).
Proof.
  intros Hs Hne.
  destruct (process_measure_labels now data m reg w) as (-> & _ & _).
  rewrite (noted_mismatch _ _ _ _ _ _ Hs). unfold note_mismatch.
  rewrite Hne. simpl. apply count_inc_label_eq.
Qed.

(** A turn whose gauge name is free, by what it comes to. *)
Lemma process_measure_turn now data m reg w :
  (∀ unit, OrderedDict.get prom_units (Measure.unit m) = Some unit →
           gauge_name m unit ∉ reg.*1) →
  process_measure py now data m reg w
  = match turn py now data m with
    | Ret g => (Ret (reg ++ option_list g), noted py now data m w)
    | Raise e => failed e reg (noted py now data m w)
    end.
Proof.
  intros Hfree. rewrite process_measure_unfold. unfold turn.
  destruct (current_value py now data m) as [value|e]; [|done]. simpl.
  destruct (OrderedDict.get prom_units (Measure.unit m)) as [unit|] eqn:Hu;
    [|by rewrite app_nil_r].
  destruct (Json.is_None value); [by rewrite app_nil_r|].
  rewrite bool_decide_eq_false_2 by by apply Hfree.
  destruct (UnitConversion.convert unit value) as [converted|e]; [|done].
  simpl. by destruct (py_float py converted).
Qed.

Lemma process_measure_gauge now data m reg w :
  (∀ unit, OrderedDict.get prom_units (Measure.unit m) = Some unit →
           gauge_name m unit ∉ reg.*1) →
  (process_measure py now data m reg w).1
  = match gauge py now data m with
    | Ret g => Ret (reg ++ option_list g)
    | Raise e => Raise e
    end
  ∧ FORECAST_PROCESSING_FAILURES (process_measure py now data m reg w).2
    = FORECAST_PROCESSING_FAILURES w
      + match turn py now data m with
        | Ret _ => 0
        | Raise _ => 1
        end.
Proof.
  intros Hfree. rewrite process_measure_turn by done. unfold gauge.
  destruct (turn py now data m) as [g|e]; simpl.
  - rewrite noted_processing. split; [done | lia].
  - rewrite noted_processing. split; [|lia].
    destruct e; simpl; try done. by rewrite app_nil_r.
Qed.

Lemma gauge_name_elem now data m g :
  gauge py now data m = Ret (Some g) →
  ∃ unit, OrderedDict.get prom_units (Measure.unit m) = Some unit
          ∧ g.1 = gauge_name m unit.
Proof.
  unfold gauge, turn.
  destruct (current_value py now data m) as [value|e]; simpl;
    [|by destruct e].
  destruct (OrderedDict.get prom_units (Measure.unit m)) as [unit|]; [|done].
  destruct (Json.is_None value); [done|].
  destruct (UnitConversion.convert unit value) as [converted|e]; simpl;
    [|by destruct e].
  destruct (py_float py converted) as [v|e]; simpl; [|by destruct e].
  intros [= <-]. by exists unit.
Qed.

Lemma gauge_not_KeyError now data m : gauge py now data m ≠ Raise KeyError.
Proof. unfold gauge. by destruct (turn py now data m) as [g|[]]. Qed.

Lemma gauge_raise now data m e :
  gauge py now data m = Raise e →
  turn py now data m = Raise e ∧ e ≠ KeyError.
Proof. unfold gauge. by destruct (turn py now data m) as [g|[]]; intros [= <-]. Qed.

Lemma gauges_cons clock i data m ms :
  gauges py clock i data (m :: ms)
  = (g ← gauge py (clock i) data m;
     report ← gauges py clock (S i) data ms;
     Ret (option_list g ++ report)).
Proof. done. Qed.

Lemma gauges_cons_Ret clock i data m ms report :
  gauges py clock i data (m :: ms) = Ret report →
  ∃ g rest, gauge py (clock i) data m = Ret g
            ∧ gauges py clock (S i) data ms = Ret rest
            ∧ report = option_list g ++ rest.
Proof.
  rewrite gauges_cons.
  destruct (gauge py (clock i) data m) as [g|e]; [|done]. simpl.
  destruct (gauges py clock (S i) data ms) as [rest|e]; [|done]. simpl.
  intros [= <-]. by exists g, rest.
Qed.

Lemma gauges_app_Ret clock i data pre post report :
  gauges py clock i data (pre ++ post) = Ret report →
  ∃ r1 r2, gauges py clock i data pre = Ret r1
           ∧ gauges py clock (i + length pre) data post = Ret r2
           ∧ report = r1 ++ r2.
Proof.
  revert i report. induction pre as [|m pre IH]; intros i report.
  - simpl. rewrite Nat.add_0_r. intros Hr. by exists [], report.
  - rewrite <- app_comm_cons. intros Hr.
    apply gauges_cons_Ret in Hr as (g & rest & Hg & Hrest & ->).
    apply IH in Hrest as (r1 & r2 & Hr1 & Hr2 & ->).
    exists (option_list g ++ r1), r2. rewrite gauges_cons, Hg, Hr1. simpl.
    split_and!; [done| |by rewrite app_assoc].
    by rewrite Nat.add_succ_r.
Qed.

Lemma gauge_names_cons m ms :
  gauge_names (m :: ms)
  = option_list (gauge_name m
                   <$> OrderedDict.get prom_units (Measure.unit m))
      ++ gauge_names ms.
Proof.
  unfold gauge_names. simpl.
  by destruct (OrderedDict.get prom_units (Measure.unit m)).
Qed.

Lemma gauge_names_app pre post :
  gauge_names (pre ++ post) = gauge_names pre ++ gauge_names post.
Proof. unfold gauge_names. apply omap_app. Qed.

Lemma gauge_names_length ms : length (gauge_names ms) ≤ length ms.
Proof.
  induction ms as [|m ms IH]; [done|].
  rewrite gauge_names_cons, length_app.
  destruct (OrderedDict.get prom_units (Measure.unit m)); simpl; lia.
Qed.

Lemma gauge_names_turn now data m g :
  gauge py now data m = Ret g →
  (option_list g).*1
  `sublist_of` option_list (gauge_name m
                   <$> OrderedDict.get prom_units (Measure.unit m)).
Proof.
  destruct g as [g|]; [|intros _; apply sublist_nil_l].
  intros (unit & -> & Hn)%gauge_name_elem. simpl. by rewrite Hn.
Qed.

(** The names of a report are names of the measures, in their order. *)
Lemma gauges_sublist clock i data ms report :
  gauges py clock i data ms = Ret report →
  report.*1 `sublist_of` gauge_names ms.
Proof.
  revert i report. induction ms as [|m ms IH]; intros i report.
  - by intros [= <-].
  - intros (g & rest & Hg & Hrest & ->)%gauges_cons_Ret.
    rewrite gauge_names_cons, fmap_app.
    apply sublist_app; [by eapply gauge_names_turn | by eapply IH].
Qed.

Lemma gauges_names clock i data ms report n :
  gauges py clock i data ms = Ret report →
  n ∈ report.*1 → n ∈ gauge_names ms.
Proof.
  intros Hr Hn. eapply elem_of_sublist; [exact Hn|]. by eapply gauges_sublist.
Qed.

Lemma gauges_elem clock i data ms report g :
  gauges py clock i data ms = Ret report →
  g ∈ report →
  ∃ j m, ms !! j = Some m ∧ gauge py (clock (i + j)) data m = Ret (Some g).
Proof.
  revert i report. induction ms as [|m ms IH]; intros i report.
  - intros [= <-]. by intros ?%elem_of_nil.
  - intros (g' & rest & Hg & Hrest & ->)%gauges_cons_Ret.
    rewrite elem_of_app. intros [Hin|Hin].
    + exists 0, m. rewrite Nat.add_0_r. split; [done|].
      destruct g' as [g'|]; simpl in Hin; [|by apply elem_of_nil in Hin].
      apply list_elem_of_singleton in Hin. by subst.
    + destruct (IH _ _ Hrest Hin) as (j & m' & Hj & Hg').
      exists (S j), m'. split; [done|]. by rewrite Nat.add_succ_r.
Qed.

Lemma gauges_raise clock i data ms e :
  gauges py clock i data ms = Raise e →
  e ≠ KeyError
  ∧ ∃ j m, ms !! j = Some m ∧ turn py (clock (i + j)) data m = Raise e
           ∧ ∀ j' m', j' < j → ms !! j' = Some m' →
               ∃ g, gauge py (clock (i + j')) data m' = Ret g.
Proof.
  revert i. induction ms as [|m ms IH]; intros i; [done|].
  rewrite gauges_cons.
  destruct (gauge py (clock i) data m) as [g|e'] eqn:Hg; simpl.
  - destruct (gauges py clock (S i) data ms) as [rest|e'] eqn:Hrest; [done|].
    simpl. intros [= ->].
    destruct (IH _ Hrest) as (Hne & j & m' & Hj & Hturn & Hbefore).
    split; [done|]. exists (S j), m'. rewrite Nat.add_succ_r.
    split_and!; [done..|].
    intros [|j'] m'' Hlt Hj'.
    + injection Hj' as <-. rewrite Nat.add_0_r. by exists g.
    + rewrite Nat.add_succ_r. apply Hbefore; [lia | done].
  - intros [= ->]. apply gauge_raise in Hg as [Hturn Hne].
    split; [done|]. exists 0, m. rewrite Nat.add_0_r.
    split_and!; [done..|]. intros j' m' Hlt. lia.
Qed.

Lemma gauges_Ret_turns clock i data ms report :
  gauges py clock i data ms = Ret report →
  ∀ j m e, ms !! j = Some m → e ≠ KeyError →
           turn py (clock (i + j)) data m ≠ Raise e.
Proof.
  revert i report. induction ms as [|m ms IH]; intros i report; [done|].
  intros (g & rest & Hg & Hrest & _)%gauges_cons_Ret [|j] m' e Hj Hne Hturn.
  - injection Hj as <-. rewrite Nat.add_0_r in Hturn.
    unfold gauge in Hg. rewrite Hturn in Hg. by destruct e.
  - rewrite Nat.add_succ_r in Hturn. by eapply (IH (S i)).
Qed.

Lemma gauges_includes clock i data pre m post report g :
  gauges py clock i data (pre ++ m :: post) = Ret report →
  gauge py (clock (i + length pre)) data m = Ret (Some g) →
  g ∈ report.
Proof.
  intros (r1 & r2 & _ & Hr2 & ->)%gauges_app_Ret Hg.
  apply gauges_cons_Ret in Hr2 as (g' & rest & Hg' & _ & ->).
  rewrite Hg in Hg'. injection Hg' as <-.
  rewrite !elem_of_app. right. left. apply list_elem_of_here.
Qed.

Lemma gauges_omits clock i data pre m post report unit :
  NoDup (gauge_names (pre ++ m :: post)) →
  gauges py clock i data (pre ++ m :: post) = Ret report →
  gauge py (clock (i + length pre)) data m = Ret None →
  OrderedDict.get prom_units (Measure.unit m) = Some unit →
  gauge_name m unit ∉ report.*1.
Proof.
  intros Hnd (r1 & r2 & Hr1 & Hr2 & ->)%gauges_app_Ret Hg Hu.
  apply gauges_cons_Ret in Hr2 as (g' & rest & Hg' & Hrest & ->).
  rewrite Hg in Hg'. injection Hg' as <-.
  rewrite gauge_names_app, gauge_names_cons, Hu in Hnd. simpl in Hnd.
  apply NoDup_app in Hnd as (_ & Hdisj & Hnd).
  apply NoDup_cons in Hnd as [Hpost _].
  rewrite fmap_app, elem_of_app. simpl.
  intros [Hin|Hin].
  - eapply gauges_names in Hin; [|exact Hr1].
    apply (Hdisj _ Hin), list_elem_of_here.
  - eapply gauges_names in Hin; [|exact Hrest]. done.
Qed.

(** The loop: with distinct gauge names, it returns the registry grown by
    the gauges of the measures, in their order, or raises the exception of
    the first turn that leaves it; every turn that raised has been
    counted. *)
Lemma process_measures_gauges clock data ms i reg w :
  NoDup (gauge_names ms) →
  (∀ n, n ∈ reg.*1 → n ∉ gauge_names ms) →
  (process_measures py clock i data ms reg w).1
  = match gauges py clock i data ms with
    | Ret report => Ret (reg ++ report)
    | Raise e => Raise e
    end
  ∧ FORECAST_PROCESSING_FAILURES (process_measures py clock i data ms reg w).2
    = FORECAST_PROCESSING_FAILURES w + raising_turns py clock i data ms.
Proof.
  revert i reg w. induction ms as [|m ms IH]; intros i reg w Hnd Hfree.
  { simpl. rewrite app_nil_r. split; [done | lia]. }
  rewrite gauge_names_cons in Hnd, Hfree.
  apply NoDup_app in Hnd as (_ & Hm & Hnd).
  destruct (process_measure_gauge (clock i) data m reg w) as [Hstep Hcount].
  { intros unit Hu Hin. apply (Hfree _ Hin). rewrite Hu. simpl.
    apply list_elem_of_here. }
  cbn [process_measures raising_turns]. rewrite gauges_cons. unfold bind.
  destruct (process_measure py (clock i) data m reg w) as [[reg1|e] w1];
    simpl in Hstep, Hcount.
  - destruct (gauge py (clock i) data m) as [g|e] eqn:Hg; [|done].
    injection Hstep as ->. simpl.
    destruct (IH (S i) (reg ++ option_list g) w1 Hnd) as [Hrest Hcount'].
    { intros n. rewrite fmap_app, elem_of_app. intros [Hn|Hn].
      - intros Hin. apply (Hfree _ Hn), elem_of_app. by right.
      - apply Hm. eapply elem_of_sublist; [exact Hn|].
        by eapply gauge_names_turn. }
    rewrite Hrest, Hcount', Hcount. split.
    + destruct (gauges py clock (S i) data ms) as [rest|e]; simpl; [|done].
      by rewrite app_assoc.
    + unfold gauge in Hg.
      destruct (turn py (clock i) data m) as [g'|[]]; simpl in *; try done;
        lia.
  - destruct (gauge py (clock i) data m) as [g|e'] eqn:Hg; [done|].
    injection Hstep as ->. simpl. split; [done|].
    apply gauge_raise in Hg as [Hturn Hne]. rewrite Hturn in Hcount |- *.
    rewrite Hcount. by destruct e'.
Qed.

Lemma process_measures_app clock data pre post i reg w :
  process_measures py clock i data (pre ++ post) reg w
  = match process_measures py clock i data pre reg w with
    | (Ret reg', w') =>
        process_measures py clock (i + length pre) data post reg' w'
    | (Raise e, w') => (Raise e, w')
    end.
Proof.
  revert i reg w. induction pre as [|m pre IH]; intros i reg w.
  - simpl. by rewrite Nat.add_0_r.
  - rewrite <- app_comm_cons. cbn [process_measures]. unfold bind.
    destruct (process_measure py (clock i) data m reg w) as [[reg1|e] w1];
      [|done].
    rewrite IH. simpl. by rewrite Nat.add_succ_r.
Qed.

(** A loop that returns, seen from one of its measures: the turns before
    it, its own turn, and the turns after it. *)
Lemma process_measures_middle clock data pre m post i w report :
  NoDup (gauge_names (pre ++ m :: post)) →
  gauges py clock i data (pre ++ m :: post) = Ret report →
  ∃ w1 reg1,
    counters_grow w w1
    ∧ counters_grow
        (process_measure py (clock (i + length pre)) data m reg1 w1).2
        (process_measures py clock i data (pre ++ m :: post) [] w).2.
Proof.
  intros Hnd Hr.
  apply gauges_app_Ret in Hr as (r1 & r2 & Hr1 & Hr2 & ->).
  rewrite gauge_names_app in Hnd. apply NoDup_app in Hnd as (Hpre & _ & _).
  destruct (process_measures_gauges clock data pre i [] w Hpre) as [Hrun _];
    [by intros n Hn%elem_of_nil|].
  rewrite Hr1 in Hrun. simpl in Hrun.
  pose proof (process_measures_grows clock data pre i [] w) as Hg1.
  rewrite process_measures_app.
  destruct (process_measures py clock i data pre [] w) as [[reg1|e] w1];
    simpl in Hrun, Hg1; [|done].
  exists w1, reg1. split; [done|].
  cbn [process_measures]. unfold bind.
  destruct (process_measure py (clock (i + length pre)) data m reg1 w1)
    as [[reg2|e] w2]; simpl; [|apply counters_grow_refl].
  apply process_measures_grows.
Qed.
End measure_loop_facts.

(** ** The report of [get_weather] *)

Section report_facts.
Context (py : Library).
Import ExpiringCache.
Implicit Types (w : World) (m : Measure.t) (location : GridpointLocation.t).
#[local] Opaque prom_units measures.

(** A probe that misses leaves the entries without the probed key: either
    it was absent, or its expired entry has been purged. *)
Lemma get_miss_entries {K V} `{EqDecision K} now (key : K)
    (c : ExpiringCache.t K V) :
  (get now key c).1 = None →
  entries (get now key c).2 = OrderedDict.del (entries c) key
  ∧ metric_cache_write (get now key c).2 = metric_cache_write c
  ∧ max_size (get now key c).2 = max_size c.
Proof.
  unfold get.
  destruct (OrderedDict.get (entries c) key) as [r|] eqn:Hg.
  - by destruct (validity r <? now)%Z.
  - intros _. simpl. by rewrite od_del_absent.
Qed.

Lemma get_age_params {K V} `{EqDecision K} now (key : K)
    (c : ExpiringCache.t K V) :
  age_params (get now key c).2 = age_params c.
Proof.
  unfold get. destruct (OrderedDict.get _ _) as [r|]; [|done].
  by destruct (validity r <? now)%Z.
Qed.

Lemma measures_gauge_names_distinct : NoDup (gauge_names measures).
Proof. by_decision. Qed.

Lemma measures_units_known m :
  m ∈ measures → is_Some (OrderedDict.get prom_units (Measure.unit m)).
Proof.
  revert m. apply Forall_forall. by_decision.
Qed.

Lemma lookup_middle {A} (l : list A) i x :
  l !! i = Some x → ∃ pre post, l = pre ++ x :: post ∧ length pre = i.
Proof.
  intros Hl. exists (take i l), (drop (S i) l). split.
  - by rewrite take_drop_middle.
  - apply length_take_le. apply lookup_lt_Some in Hl. lia.
Qed.

Lemma insert_head {K V} `{EqDecision K} now (key : K) (v : V)
    (c : ExpiringCache.t K V) :
  (1 ≤ max_size c)%Z →
  (insert now key v c).1 = Ret ()
  ∧ head (entries (insert now key v c).2)
    = Some (key, Record_ (now + age_params c)%Z v).
Proof.
  intros Hmax. destruct (Z.lt_ge_cases (size c) (max_size c)) as [Hlt|Hge].
  - by rewrite insert_below_capacity.
  - assert (entries c ≠ []) as Hne.
    { intros He. unfold size in Hge. rewrite He in Hge. simpl in Hge. lia. }
    destruct (exists_last Hne) as (rest & x & He).
    by rewrite (insert_at_capacity _ _ _ _ rest x).
Qed.

Lemma od_get_head {K V} `{EqDecision K} (d : OrderedDict.t K V) k v :
  head d = Some (k, v) → OrderedDict.get d k = Some v.
Proof.
  destruct d as [|[k' v'] d]; [done|]. simpl. intros [= -> ->].
  by rewrite decide_True.
Qed.

(** A request that misses the cache and gets a JSON document, whatever the
    status of the response: the document goes through the loop, and the
    registry the loop returns is inserted into the cache. *)
Lemma get_weather_miss clock status data location w :
  (get (clock 0) location (weather_cache w)).1 = None →
  get_weather py clock (Response status (Some data)) location w
  = match process_measures py clock 1 data measures []
            (send (GridpointsRequest (GridpointLocation.wfo location)
                     (GridpointLocation.x location)
                     (GridpointLocation.y location))
               (set_weather_cache (get (clock 0) location (weather_cache w)).2
                  w)) with
    | (Ret registry, w1) =>
        (match (insert (clock (S (length measures))) location registry
                  (weather_cache w1)).1 with
         | Ret _ => Ret registry
         | Raise e => Raise e
         end,
         set_weather_cache
           (insert (clock (S (length measures))) location registry
              (weather_cache w1)).2 w1)
    | (Raise e, w1) => (Raise e, w1)
    end.
Proof.
  intros Hmiss.
  unfold get_weather, bind, weather_cache_get, count_exceptions,
    requests_get_json, weather_cache_insert, ret.
  rewrite Hmiss. cbn [json fst snd].
  destruct (process_measures _ _ _ _ _ _ _) as [[registry|e] w1]; [|done].
  by destruct (insert _ _ _ _) as [[[]|e] c'].
Qed.

(** With room in the cache, the request comes to what the loop comes to:
    the report, which is then cached, or the exception that left the loop,
    and then nothing is cached. *)
Lemma get_weather_miss_json clock status data location w :
  (get (clock 0) location (weather_cache w)).1 = None →
  (1 ≤ max_size (weather_cache w))%Z →
  ∃ w3,
    counters_grow
      (send (GridpointsRequest (GridpointLocation.wfo location)
               (GridpointLocation.x location) (GridpointLocation.y location))
         (set_weather_cache (get (clock 0) location (weather_cache w)).2 w))
      w3
    ∧ w3 = (process_measures py clock 1 data measures []
              (send (GridpointsRequest (GridpointLocation.wfo location)
                       (GridpointLocation.x location)
                       (GridpointLocation.y location))
                 (set_weather_cache
                    (get (clock 0) location (weather_cache w)).2 w))).2
    ∧ FORECAST_PROCESSING_FAILURES w3
      = FORECAST_PROCESSING_FAILURES w
        + raising_turns py clock 1 data measures
    ∧ get_weather py clock (Response status (Some data)) location w
      = match gauges py clock 1 data measures with
        | Ret report =>
            (Ret report,
             set_weather_cache
               (insert (clock (S (length measures))) location report
                  (get (clock 0) location (weather_cache w)).2).2
               w3)
        | Raise e => (Raise e, w3)
        end
    ∧ ∀ report,
        OrderedDict.get
          (entries
             (insert (clock (S (length measures))) location report
                (get (clock 0) location (weather_cache w)).2).2) location
        = Some (Record_ (clock (S (length measures))
                         + age_params (weather_cache w))%Z report).
Proof.
  intros Hmiss Hmax.
  rewrite (get_weather_miss _ _ _ _ _ Hmiss).
  set (probed := (get (clock 0) location (weather_cache w)).2).
  set (w0 := send _ _).
  destruct (process_measures_gauges py clock data measures 1 [] w0
              measures_gauge_names_distinct) as [Hrun Hcount];
    [by intros n Hn%elem_of_nil|].
  pose proof (process_measures_grows py clock data measures 1 [] w0) as Hgrow.
  assert (∀ report,
            (insert (clock (S (length measures))) location report probed).1
            = Ret ()
            ∧ OrderedDict.get
                (entries
                   (insert (clock (S (length measures))) location report
                      probed).2) location
              = Some (Record_ (clock (S (length measures))
                               + age_params (weather_cache w))%Z report))
    as Hins.
  { intros report.
    destruct (insert_head (clock (S (length measures))) location report
                probed) as [Hret Hhead].
    { unfold probed. by rewrite get_max_size. }
    split; [done|]. apply od_get_head. rewrite Hhead. unfold probed.
    by rewrite get_age_params. }
  exists (process_measures py clock 1 data measures [] w0).2.
  split_and!; [done | done | done | | intros; apply Hins].
  destruct (process_measures py clock 1 data measures [] w0)
    as [[registry|e] w1]; simpl in *.
  - destruct (gauges py clock 1 data measures) as [report|e]; [|done].
    injection Hrun as ->. rewrite (grow_cache _ _ Hgrow). simpl.
    fold probed. by destruct (Hins report) as [-> _].
  - destruct (gauges py clock 1 data measures) as [report|e']; [done|].
    by injection Hrun as ->.
Qed.

Lemma turn_failed now data m :
  current_value py now data m = Raise KeyError
  ∨ current_value py now data m = Ret Json.Null →
  gauge py now data m = Ret None
  ∧ ∀ e, e ≠ KeyError → turn py now data m ≠ Raise e.
Proof.
  unfold gauge, turn. intros [-> | ->]; simpl.
  - split; [done|]. congruence.
  - by destruct (OrderedDict.get prom_units (Measure.unit m)).
Qed.

Lemma turn_converted now data m value unit v :
  current_value py now data m = Ret value →
  Json.is_None value = false →
  OrderedDict.get prom_units (Measure.unit m) = Some unit →
  (converted ← UnitConversion.convert unit value; py_float py converted)
  = Ret v →
  gauge py now data m = Ret (Some (gauge_name m unit, v)).
Proof.
  unfold gauge, turn. intros -> Hv -> Hc. simpl. rewrite Hv.
  destruct (UnitConversion.convert unit value) as [converted|e]; [|done].
  simpl in *. by rewrite Hc.
Qed.

(** C6, amended: for every grid location whose cache probe misses, if the
    remote call raises (no connection, or a body that is not JSON),
    [get_weather] counts a forecast lookup failure and raises the same
    exception, after a single request and without inserting into the
    cache: the cache is as the probe left it, that is, with the entries it
    had apart from the expired entry of this location, which the probe has
    purged.  A response whose body is JSON is no fetch failure, whatever
    its status: the status is not looked at, so the request ends, in result
    and in state, as it does for status 200; no lookup failure is counted,
    one request is sent, and the document goes through the loop over the
    measures, whose outcome is the outcome of the request. *)
Theorem get_weather_fetch_raises clock remote location w e :
  (get (clock 0) location (weather_cache w)).1 = None →
  (json remote = Raise e →
   (get_weather py clock remote location w).1 = Raise e
   ∧ FORECAST_LOOKUP_FAILURES (get_weather py clock remote location w).2
     = S (FORECAST_LOOKUP_FAILURES w)
   ∧ requests_sent (get_weather py clock remote location w).2
     = requests_sent w
         ++ [GridpointsRequest (GridpointLocation.wfo location)
               (GridpointLocation.x location) (GridpointLocation.y location)]
   ∧ weather_cache (get_weather py clock remote location w).2
     = (get (clock 0) location (weather_cache w)).2
   ∧ metric_cache_write
       (weather_cache (get_weather py clock remote location w).2)
     = metric_cache_write (weather_cache w)
   ∧ entries (weather_cache (get_weather py clock remote location w).2)
     = OrderedDict.del (entries (weather_cache w)) location)
  ∧ (∀ status (data : Json.t),
       get_weather py clock (Response status (Some data)) location w
       = get_weather py clock (Response 200 (Some data)) location w
       ∧ FORECAST_LOOKUP_FAILURES
           (get_weather py clock (Response status (Some data)) location w).2
         = FORECAST_LOOKUP_FAILURES w
       ∧ requests_sent
           (get_weather py clock (Response status (Some data)) location w).2
         = requests_sent w
             ++ [GridpointsRequest (GridpointLocation.wfo location)
                   (GridpointLocation.x location)
                   (GridpointLocation.y location)]
       ∧ ((1 ≤ max_size (weather_cache w))%Z →
          (get_weather py clock (Response status (Some data)) location w).1
          = gauges py clock 1 data measures)).
Proof.
  intros Hmiss. split.
  - intros He.
    destruct (get_miss_entries _ _ _ Hmiss) as (Hent & Hwr & _).
    unfold get_weather, bind, weather_cache_get, count_exceptions,
      requests_get_json.
    rewrite Hmiss, He. simpl. by rewrite Hent, Hwr.
  - intros status data. split_and!.
    + by rewrite !get_weather_miss.
    + rewrite get_weather_miss by done.
      pose proof (process_measures_grows py clock data measures 1 []
                    (send (GridpointsRequest (GridpointLocation.wfo location)
                             (GridpointLocation.x location)
                             (GridpointLocation.y location))
                       (set_weather_cache
                          (get (clock 0) location (weather_cache w)).2 w)))
        as Hgrow.
      destruct (process_measures _ _ _ _ _ _ _) as [[registry|e'] w1];
        simpl in *; by rewrite (grow_lookup _ _ Hgrow).
    + rewrite get_weather_miss by done.
      pose proof (process_measures_grows py clock data measures 1 []
                    (send (GridpointsRequest (GridpointLocation.wfo location)
                             (GridpointLocation.x location)
                             (GridpointLocation.y location))
                       (set_weather_cache
                          (get (clock 0) location (weather_cache w)).2 w)))
        as Hgrow.
      destruct (process_measures _ _ _ _ _ _ _) as [[registry|e'] w1];
        simpl in *; by rewrite (grow_requests _ _ Hgrow).
    + intros Hmax.
      destruct (get_weather_miss_json clock status data location w Hmiss Hmax)
        as (w3 & _ & _ & _ & -> & _).
      by destruct (gauges py clock 1 data measures).
Qed.

(** C7, amended: for every fetched payload and every measure of the catalog
    whose source key is missing from the payload, or whose series lacks
    another key the extraction reads, or has no current value: the turn of
    the measure registers nothing, counts the failure (a processing failure
    for a missing key, a fetch-current failure for a missing value) and
    returns, so that the loop goes on with the next measure.  When
    [get_weather] returns a report, the report is cached, has no gauge for
    that measure, and holds the converted value of every measure that has a
    current value which its conversion accepts.  [get_weather] returns no
    report, and caches nothing, exactly when the turn of another measure
    raises an exception other than [KeyError]; it is that exception which
    [get_weather] raises.  A measure whose unit has no conversion is skipped
    in the same way, with a conversion failure counted; no measure of the
    catalog is such a measure. *)
Theorem get_weather_omits_failed_measures clock status data location w i m :
  (get (clock 0) location (weather_cache w)).1 = None →
  (1 ≤ max_size (weather_cache w))%Z →
  measures !! i = Some m →
  key_missing data m
  ∨ current_value py (clock (S i)) data m = Raise KeyError
  ∨ current_value py (clock (S i)) data m = Ret Json.Null →
  (∀ registry w0,
     ∃ w1,
       process_measure py (clock (S i)) data m registry w0 = (Ret registry, w1)
       ∧ counters_grow w0 w1
       ∧ (FORECAST_PROCESSING_FAILURES w1
          = S (FORECAST_PROCESSING_FAILURES w0)
          ∨ count (FETCH_CURRENT_VALUE_FAILURE w1) (Measure.key m)
            = S (count (FETCH_CURRENT_VALUE_FAILURE w0) (Measure.key m)))
       ∧ (key_missing data m →
          FORECAST_PROCESSING_FAILURES w1
          = S (FORECAST_PROCESSING_FAILURES w0))
       ∧ (current_value py (clock (S i)) data m = Ret Json.Null →
          count (FETCH_CURRENT_VALUE_FAILURE w1) (Measure.key m)
          = S (count (FETCH_CURRENT_VALUE_FAILURE w0) (Measure.key m))))
  ∧ (∀ report,
       (get_weather py clock (Response status (Some data)) location w).1
       = Ret report →
       OrderedDict.get
         (entries
            (weather_cache
               (get_weather py clock (Response status (Some data))
                  location w).2)) location
       = Some (Record_ (clock (S (length measures))
                        + age_params (weather_cache w))%Z report)
       ∧ (∀ unit, OrderedDict.get prom_units (Measure.unit m) = Some unit →
                  gauge_name m unit ∉ report.*1)
       ∧ (FORECAST_PROCESSING_FAILURES w
          < FORECAST_PROCESSING_FAILURES
              (get_weather py clock (Response status (Some data))
                 location w).2
          ∨ count (FETCH_CURRENT_VALUE_FAILURE w) (Measure.key m)
            < count (FETCH_CURRENT_VALUE_FAILURE
                       (get_weather py clock (Response status (Some data))
                          location w).2) (Measure.key m))
       ∧ (key_missing data m →
          FORECAST_PROCESSING_FAILURES w
          < FORECAST_PROCESSING_FAILURES
              (get_weather py clock (Response status (Some data))
                 location w).2)
       ∧ (∀ j m' value unit v,
            measures !! j = Some m' →
            current_value py (clock (S j)) data m' = Ret value →
            Json.is_None value = false →
            OrderedDict.get prom_units (Measure.unit m') = Some unit →
            (converted ← UnitConversion.convert unit value;
             py_float py converted) = Ret v →
            (gauge_name m' unit, v) ∈ report))
  ∧ (∀ e,
       (get_weather py clock (Response status (Some data)) location w).1
       = Raise e →
       e ≠ KeyError
       ∧ (∃ j m', j ≠ i ∧ measures !! j = Some m'
                  ∧ turn py (clock (S j)) data m' = Raise e)
       ∧ weather_cache
           (get_weather py clock (Response status (Some data)) location w).2
         = (get (clock 0) location (weather_cache w)).2)
  ∧ ((∃ report,
        (get_weather py clock (Response status (Some data)) location w).1
        = Ret report)
     ↔ (∀ j m' e, measures !! j = Some m' → e ≠ KeyError →
                  turn py (clock (S j)) data m' ≠ Raise e))
  ∧ (∀ m0 now value registry w0,
       current_value py now data m0 = Ret value →
       OrderedDict.get prom_units (Measure.unit m0) = None →
       ∃ w1,
         process_measure py now data m0 registry w0 = (Ret registry, w1)
         ∧ count (UNIT_CONVERSION_FAILURE w1) (Measure.unit m0)
           = S (count (UNIT_CONVERSION_FAILURE w0) (Measure.unit m0)))
  ∧ (∀ m', m' ∈ measures →
           is_Some (OrderedDict.get prom_units (Measure.unit m'))).
Proof.
  intros Hmiss Hmax Hi Hfail.
  assert (current_value py (clock (S i)) data m = Raise KeyError
          ∨ current_value py (clock (S i)) data m = Ret Json.Null) as Hc.
  { destruct Hfail as [Hk|[?|?]]; [left|by left|by right].
    by apply key_missing_current_value. }
  destruct (turn_failed _ _ _ Hc) as [Hgauge Hturn].
  assert (∀ registry w0,
     ∃ w1,
       process_measure py (clock (S i)) data m registry w0 = (Ret registry, w1)
       ∧ counters_grow w0 w1
       ∧ (FORECAST_PROCESSING_FAILURES w1
          = S (FORECAST_PROCESSING_FAILURES w0)
          ∨ count (FETCH_CURRENT_VALUE_FAILURE w1) (Measure.key m)
            = S (count (FETCH_CURRENT_VALUE_FAILURE w0) (Measure.key m)))
       ∧ (key_missing data m →
          FORECAST_PROCESSING_FAILURES w1
          = S (FORECAST_PROCESSING_FAILURES w0))
       ∧ (current_value py (clock (S i)) data m = Ret Json.Null →
          count (FETCH_CURRENT_VALUE_FAILURE w1) (Measure.key m)
          = S (count (FETCH_CURRENT_VALUE_FAILURE w0) (Measure.key m))))
    as Hstep.
  { intros registry w0.
    pose proof (process_measure_grows py (clock (S i)) data m registry w0)
      as Hgrow.
    destruct Hc as [Hc|Hc].
    - rewrite (process_measure_KeyError py _ _ _ _ _ Hc) in Hgrow |- *.
      eexists. split_and!; [done | exact Hgrow | | |].
      + left. simpl. by rewrite noted_processing.
      + intros _. simpl. by rewrite noted_processing.
      + congruence.
    - destruct (process_measure_no_value py _ _ _ registry w0 Hc)
        as [Heq Hcount].
      rewrite Heq in Hgrow |- *.
      eexists. split_and!; [done | exact Hgrow | by right | | done].
      intros Hk%(key_missing_current_value py (clock (S i))). congruence. }
  destruct (lookup_middle _ _ _ Hi) as (pre & post & Hms & Hlen).
  destruct (get_weather_miss_json clock status data location w Hmiss Hmax)
    as (w3 & Hgrow & Hw3 & Hcount & Hrun & Hcached).
  pose proof measures_gauge_names_distinct as Hnd.
  split_and!.
  - exact Hstep.
  - intros report. rewrite Hrun.
    destruct (gauges py clock 1 data measures) as [report'|e] eqn:Hr; [|done].
    intros [= ->]. cbn [fst snd weather_cache set_weather_cache].
    rewrite Hms in Hr, Hnd.
    assert (gauge py (clock (1 + length pre)) data m = Ret None) as Hgauge'
      by by rewrite Hlen.
    destruct (process_measures_middle py clock data pre m post 1
                (send (GridpointsRequest (GridpointLocation.wfo location)
                         (GridpointLocation.x location)
                         (GridpointLocation.y location))
                   (set_weather_cache
                      (get (clock 0) location (weather_cache w)).2 w))
                report Hnd Hr) as (w1 & reg1 & Hg1 & Hg3).
    rewrite <- Hms, <- Hw3 in Hg3. simpl in Hg3. rewrite Hlen in Hg3.
    destruct (Hstep reg1 w1) as (w2 & Heq & _ & Hinc & Hkey & _).
    rewrite Heq in Hg3. simpl in Hg3.
    pose proof (grow_processing _ _ Hg1) as Hp1.
    pose proof (grow_processing _ _ Hg3) as Hp3.
    pose proof (grow_value _ _ Hg1 (Measure.key m)) as Hv1.
    pose proof (grow_value _ _ Hg3 (Measure.key m)) as Hv3.
    simpl in Hp1, Hv1.
    split_and!.
    + apply Hcached.
    + intros unit Hunit. by eapply gauges_omits.
    + simpl. destruct Hinc as [Hinc|Hinc]; [left | right]; lia.
    + intros Hk. specialize (Hkey Hk). simpl. lia.
    + intros j m' value unit v Hj Hcv Hnn Hunit Hconv.
      destruct (lookup_middle _ _ _ Hj) as (pre' & post' & Hms' & Hlen').
      rewrite <- Hms, Hms' in Hr. eapply gauges_includes; [exact Hr|].
      simpl. rewrite Hlen'. by eapply turn_converted.
  - intros e. rewrite Hrun.
    destruct (gauges py clock 1 data measures) as [report'|e'] eqn:Hr; [done|].
    intros [= ->]. simpl.
    apply gauges_raise in Hr as (Hne & j & m' & Hj & Hraise & _).
    split_and!; [done| |by rewrite (grow_cache _ _ Hgrow)].
    exists j, m'. split_and!; [|done..].
    intros ->. rewrite Hi in Hj. injection Hj as <-.
    by apply (Hturn e).
  - rewrite Hrun. split.
    + intros [report Hret] j m' e.
      destruct (gauges py clock 1 data measures) as [report'|e'] eqn:Hr;
        [|done].
      by eapply (gauges_Ret_turns py clock 1).
    + intros Hnone.
      destruct (gauges py clock 1 data measures) as [report'|e'] eqn:Hr;
        [by eexists|].
      apply gauges_raise in Hr as (Hne & j & m' & Hj & Hraise & _).
      by destruct (Hnone j m' e').
  - intros m0 now value registry w0 Hcv Hu.
    destruct (process_measure_no_unit py now data m0 registry w0 value Hcv Hu)
      as [-> Hcount']. by eexists.
  - apply measures_units_known.
Qed.

(** C8, amended: for every measure of the catalog whose series declares a
    unit other than ["unit:" + the expected unit], the turn of the measure
    counts one mismatched-unit event for the measure and the declared unit,
    whatever happens next, and goes on to extract the current value and to
    convert it with the converter of the expected unit: the turn ends as
    the conversion of the current value ends, with the gauge of the
    converted value registered, or with the exception of the conversion.
    When [get_weather] returns a report, the mismatch has been counted and
    the converted value is in the report.  [get_weather] returns no report,
    and caches nothing, exactly when the turn of some measure raises an
    exception other than [KeyError]. *)
Theorem get_weather_converts_despite_mismatch clock status data location w
    i m records uom :
  (get (clock 0) location (weather_cache w)).1 = None →
  (1 ≤ max_size (weather_cache w))%Z →
  measures !! i = Some m →
  series_of data m = Ret (records, uom) →
  Json.eq_str uom ("unit:" +:+ Measure.unit m) = false →
  (∀ registry w0,
     count (FORECAST_MISMATCHED_UNIT
              (process_measure py (clock (S i)) data m registry w0).2)
       (Measure.key m, py_str py uom)
     = S (count (FORECAST_MISMATCHED_UNIT w0)
            (Measure.key m, py_str py uom)))
  ∧ (∃ unit,
       OrderedDict.get prom_units (Measure.unit m) = Some unit
       ∧ ∀ value,
           fetch_current py (clock (S i)) records = Ret value →
           Json.is_None value = false →
           (∀ registry w0,
              gauge_name m unit ∉ registry.*1 →
              (process_measure py (clock (S i)) data m registry w0).1
              = (converted ← UnitConversion.convert unit value;
                 v ← py_float py converted;
                 Ret (registry ++ [(gauge_name m unit, v)])))
           ∧ (∀ report,
                (get_weather py clock (Response status (Some data))
                   location w).1 = Ret report →
                ∃ v, (converted ← UnitConversion.convert unit value;
                      py_float py converted) = Ret v
                     ∧ (gauge_name m unit, v) ∈ report))
  ∧ (∀ report,
       (get_weather py clock (Response status (Some data)) location w).1
       = Ret report →
       count (FORECAST_MISMATCHED_UNIT w) (Measure.key m, py_str py uom)
       < count (FORECAST_MISMATCHED_UNIT
                  (get_weather py clock (Response status (Some data))
                     location w).2)
           (Measure.key m, py_str py uom))
  ∧ (∀ e,
       (get_weather py clock (Response status (Some data)) location w).1
       = Raise e →
       e ≠ KeyError
       ∧ (∃ j m', measures !! j = Some m'
                  ∧ turn py (clock (S j)) data m' = Raise e)
       ∧ weather_cache
           (get_weather py clock (Response status (Some data)) location w).2
         = (get (clock 0) location (weather_cache w)).2)
  ∧ ((∃ report,
        (get_weather py clock (Response status (Some data)) location w).1
        = Ret report)
     ↔ (∀ j m' e, measures !! j = Some m' → e ≠ KeyError →
                  turn py (clock (S j)) data m' ≠ Raise e)).
Proof.
  intros Hmiss Hmax Hi Hs Hne.
  destruct (measures_units_known m) as [unit Hunit].
  { by eapply list_elem_of_lookup_2. }
  destruct (lookup_middle _ _ _ Hi) as (pre & post & Hms & Hlen).
  destruct (get_weather_miss_json clock status data location w Hmiss Hmax)
    as (w3 & Hgrow & Hw3 & Hcount & Hrun & Hcached).
  pose proof measures_gauge_names_distinct as Hnd.
  split_and!.
  - intros registry w0. by eapply process_measure_mismatch.
  - exists unit. split; [done|]. intros value Hv Hnn.
    assert (current_value py (clock (S i)) data m = Ret value) as Hcv.
    { unfold current_value. by rewrite Hs. }
    split.
    + intros registry w0 Hfree.
      rewrite process_measure_unfold, Hcv, Hunit, Hnn.
      rewrite bool_decide_eq_false_2 by done.
      destruct (UnitConversion.convert unit value) as [converted|e] eqn:Hconv;
        simpl.
      * destruct (py_float py converted) as [v|e] eqn:Hf; [done|]. simpl.
        destruct (py_float_raises py _ _ Hf) as [->|[->| ->]]; done.
      * destruct (convert_raises _ _ _ _ Hunit Hconv) as [->| ->]; done.
    + intros report. rewrite Hrun.
      destruct (gauges py clock 1 data measures) as [report'|e] eqn:Hr;
        [|done].
      intros [= ->]. rewrite Hms in Hr.
      destruct (gauges_app_Ret py _ _ _ _ _ _ Hr)
        as (r1 & r2 & _ & Hr2 & _).
      apply gauges_cons_Ret in Hr2 as (g & rest & Hg & _ & _).
      simpl in Hg. rewrite Hlen in Hg.
      destruct (converted ← UnitConversion.convert unit value;
                py_float py converted) as [v|e] eqn:Hconv.
      * exists v. split; [done|]. eapply gauges_includes; [exact Hr|].
        simpl. rewrite Hlen. by eapply turn_converted.
      * exfalso. revert Hg. unfold gauge, turn. rewrite Hcv, Hunit. simpl.
        rewrite Hnn.
        destruct (conversion_raises py _ _ _ _ Hunit Hconv) as [->|[->| ->]];
          revert Hconv;
          (destruct (UnitConversion.convert unit value) as [converted|e'];
             simpl; [intros ->|intros [= ->]]); done.
  - intros report. rewrite Hrun.
    destruct (gauges py clock 1 data measures) as [report'|e] eqn:Hr; [|done].
    intros [= ->]. cbn [fst snd FORECAST_MISMATCHED_UNIT set_weather_cache].
    rewrite Hms in Hr, Hnd.
    destruct (process_measures_middle py clock data pre m post 1
                (send (GridpointsRequest (GridpointLocation.wfo location)
                         (GridpointLocation.x location)
                         (GridpointLocation.y location))
                   (set_weather_cache
                      (get (clock 0) location (weather_cache w)).2 w))
                report Hnd Hr) as (w1 & reg1 & Hg1 & Hg3).
    rewrite <- Hms, <- Hw3 in Hg3. simpl in Hg3. rewrite Hlen in Hg3.
    pose proof (process_measure_mismatch py (clock (S i)) data m reg1 w1
                  records uom Hs Hne) as Hinc.
    pose proof (grow_mismatch _ _ Hg1 (Measure.key m, py_str py uom)) as H1.
    pose proof (grow_mismatch _ _ Hg3 (Measure.key m, py_str py uom)) as H3.
    simpl in H1. lia.
  - intros e. rewrite Hrun.
    destruct (gauges py clock 1 data measures) as [report'|e'] eqn:Hr; [done|].
    intros [= ->]. simpl.
    apply gauges_raise in Hr as (Hne' & j & m' & Hj & Hraise & _).
    split_and!; [done| |by rewrite (grow_cache _ _ Hgrow)].
    by exists j, m'.
  - rewrite Hrun. split.
    + intros [report Hret] j m' e.
      destruct (gauges py clock 1 data measures) as [report'|e'] eqn:Hr;
        [|done].
      by eapply (gauges_Ret_turns py clock 1).
    + intros Hnone.
      destruct (gauges py clock 1 data measures) as [report'|e'] eqn:Hr;
        [by eexists|].
      apply gauges_raise in Hr as (Hne' & j & m' & Hj & Hraise & _).
      by destruct (Hnone j m' e').
Qed.
End report_facts.

Section report_examples.
#[local] Open Scope Z_scope.
#[local] Set Warnings "-inexact-float".

(** C6 as stated fails for a non-2xx answer: the status is not looked at, so
    a 503 whose body is a JSON document without [properties] is no fetch
    failure; no lookup failure is counted, an empty report is returned and
    it is written to the cache. *)
Lemma get_weather_caches_error_response :
  (get_weather Samples.python Samples.noon Samples.forecast_unavailable
     Samples.albany initial_world).1 = Ret []
  ∧ FORECAST_LOOKUP_FAILURES
      (get_weather Samples.python Samples.noon Samples.forecast_unavailable
         Samples.albany initial_world).2 = 0%nat
  ∧ OrderedDict.get
      (ExpiringCache.entries
         (weather_cache
            (get_weather Samples.python Samples.noon
               Samples.forecast_unavailable Samples.albany initial_world).2))
      Samples.albany
    = Some (ExpiringCache.Record_ 300000000 []).
Proof. split_and!; reflexivity. Qed.

Lemma get_weather_fetch_raises_witness :
  (get_weather Samples.python Samples.noon NetworkError Samples.albany
     initial_world).1 = Raise ConnectionError
  ∧ ExpiringCache.entries
      (weather_cache
         (get_weather Samples.python Samples.noon NetworkError Samples.albany
            initial_world).2) = []
  ∧ FORECAST_LOOKUP_FAILURES
      (get_weather Samples.python Samples.noon
         (Response 503 (Some Samples.forecast_document)) Samples.albany
         initial_world).2 = 0%nat.
Proof.
  destruct (get_weather_fetch_raises Samples.python Samples.noon NetworkError
              Samples.albany initial_world ConnectionError) as [Hraise Hjson].
  - reflexivity.
  - destruct Hraise as (H1 & _ & _ & _ & _ & H2); [reflexivity|].
    destruct (Hjson 503 Samples.forecast_document) as (_ & H3 & _).
    split_and!; [exact H1 | exact H2 | exact H3].
Defined.

(** C7 as stated fails when another measure cannot be converted: in a
    document without ["temperature"] whose dew point is an integer beyond
    the range of a float, the turn of the dew point raises [OverflowError],
    which the loop does not catch; [get_weather] raises it, so that there is
    no report, the humidity, which the document holds and which converts to
    0.5, is reported nowhere, and nothing is cached. *)
Lemma get_weather_aborts_despite_missing_key :
  key_missing Samples.forecast_huge_dewpoint
    (Measure.Make "temperature" "temperature" "degC")
  ∧ (get_weather Samples.python Samples.noon
       (Response 200 (Some Samples.forecast_huge_dewpoint)) Samples.albany
       initial_world).1 = Raise OverflowError
  ∧ turn Samples.python 0 Samples.forecast_huge_dewpoint
      (Measure.Make "relativeHumidity" "relative_humidity" "percent")
    = Ret (Some ("weather_relative_humidity_ratio", 0.5%float))
  ∧ ExpiringCache.entries
      (weather_cache
         (get_weather Samples.python Samples.noon
            (Response 200 (Some Samples.forecast_huge_dewpoint))
            Samples.albany initial_world).2) = []
  ∧ FORECAST_PROCESSING_FAILURES
      (get_weather Samples.python Samples.noon
         (Response 200 (Some Samples.forecast_huge_dewpoint))
         Samples.albany initial_world).2 = 2%nat.
Proof.
  split_and!; try reflexivity.
  right. eexists. split; reflexivity.
Qed.

Lemma get_weather_omits_failed_measures_witness :
  ("weather_temperature_celsius"
   ∉ [("weather_dewpoint_celsius", 12.5%float);
      ("weather_relative_humidity_ratio", 0.5%float)].*1)
  ∧ (0 < FORECAST_PROCESSING_FAILURES
           (get_weather Samples.python Samples.noon Samples.forecast_ok
              Samples.albany initial_world).2)%nat
  ∧ ("weather_relative_humidity_ratio", 0.5%float)
    ∈ [("weather_dewpoint_celsius", 12.5%float);
       ("weather_relative_humidity_ratio", 0.5%float)].
Proof.
  destruct (get_weather_omits_failed_measures Samples.python Samples.noon 200
              Samples.forecast_document Samples.albany initial_world 0
              (Measure.Make "temperature" "temperature" "degC"))
    as (_ & Hreport & _).
  - reflexivity.
  - vm_compute. discriminate.
  - reflexivity.
  - left. right. eexists. split; reflexivity.
  - destruct (Hreport [("weather_dewpoint_celsius", 12.5%float);
                       ("weather_relative_humidity_ratio", 0.5%float)])
      as (_ & Homit & _ & Hcount & Hothers); [reflexivity|].
    split_and!.
    + apply (Homit (UnitConversion.Make "celsius" (λ x, Ret x))). reflexivity.
    + apply Hcount. right. eexists. split; reflexivity.
    + apply (Hothers 4%nat
               (Measure.Make "relativeHumidity" "relative_humidity" "percent")
               (Json.Int 50)
               (UnitConversion.Make "ratio" (λ x, truediv x 100)));
        reflexivity.
Defined.

(** C8 as stated fails when a conversion raises: the dew point declared in
    another unit counts its mismatch, but when its value is an integer
    beyond the range of a float there is no converted value, and when the
    humidity after it is such an integer the dew point's converted value,
    12.5, reaches no report; either way [get_weather] raises
    [OverflowError] and caches nothing. *)
Lemma mismatched_value_reaches_no_report :
  series_of Samples.forecast_huge_dewpoint
    (Measure.Make "dewpoint" "dewpoint" "degC")
  = Ret (Samples.series "wmoUnit:degC"
           [Samples.reading Samples.after_noon (Json.Int (10 ^ 400))],
         Json.Str "wmoUnit:degC")
  ∧ (get_weather Samples.python Samples.noon
       (Response 200 (Some Samples.forecast_huge_dewpoint)) Samples.albany
       initial_world).1 = Raise OverflowError
  ∧ count (FORECAST_MISMATCHED_UNIT
             (get_weather Samples.python Samples.noon
                (Response 200 (Some Samples.forecast_huge_dewpoint))
                Samples.albany initial_world).2)
      ("dewpoint", "wmoUnit:degC") = 1%nat
  ∧ turn Samples.python 0 Samples.forecast_huge_humidity
      (Measure.Make "dewpoint" "dewpoint" "degC")
    = Ret (Some ("weather_dewpoint_celsius", 12.5%float))
  ∧ (get_weather Samples.python Samples.noon
       (Response 200 (Some Samples.forecast_huge_humidity)) Samples.albany
       initial_world).1 = Raise OverflowError
  ∧ count (FORECAST_MISMATCHED_UNIT
             (get_weather Samples.python Samples.noon
                (Response 200 (Some Samples.forecast_huge_humidity))
                Samples.albany initial_world).2)
      ("dewpoint", "wmoUnit:degC") = 1%nat
  ∧ ExpiringCache.entries
      (weather_cache
         (get_weather Samples.python Samples.noon
            (Response 200 (Some Samples.forecast_huge_humidity))
            Samples.albany initial_world).2) = [].
Proof. split_and!; reflexivity. Qed.

Lemma get_weather_converts_despite_mismatch_witness :
  (0 < count (FORECAST_MISMATCHED_UNIT
                (get_weather Samples.python Samples.noon Samples.forecast_ok
                   Samples.albany initial_world).2)
         ("dewpoint", "wmoUnit:degF"))%nat
  ∧ ("weather_dewpoint_celsius", 12.5%float)
    ∈ [("weather_dewpoint_celsius", 12.5%float);
       ("weather_relative_humidity_ratio", 0.5%float)].
Proof.
  destruct (get_weather_converts_despite_mismatch Samples.python Samples.noon
              200 Samples.forecast_document Samples.albany initial_world 1
              (Measure.Make "dewpoint" "dewpoint" "degC")
              (Samples.series "wmoUnit:degF"
                 [Samples.reading Samples.after_noon (Json.Float 12.5)])
              (Json.Str "wmoUnit:degF"))
    as (_ & (unit & Hunit & Hvalue) & Hcount & _).
  - reflexivity.
  - vm_compute. discriminate.
  - reflexivity.
  - reflexivity.
  - reflexivity.
  - split.
    + apply (Hcount [("weather_dewpoint_celsius", 12.5%float);
                     ("weather_relative_humidity_ratio", 0.5%float)]).
      reflexivity.
    + destruct (Hvalue (Json.Float 12.5)) as [_ Hin];
        [reflexivity | reflexivity |].
      destruct (Hin [("weather_dewpoint_celsius", 12.5%float);
                     ("weather_relative_humidity_ratio", 0.5%float)])
        as (v & Hv & Hv'); [reflexivity|].
      injection Hunit as <-. injection Hv as <-. exact Hv'.
Defined.
End report_examples.

(** * Further properties of the code *)

(** ** The cache over its histories *)

Section cache_histories.
Context {K V : Type} `{EqDecision K}.
Import ExpiringCache.
Implicit Types (c : ExpiringCache.t K V) (key k : K) (v : V) (now : Time).

Lemma od_keys_del_elem (d : OrderedDict.t K (record V)) key k :
  k ∈ OrderedDict.keys (OrderedDict.del d key) → k ∈ OrderedDict.keys d.
Proof. rewrite od_keys_del, list_elem_of_filter. by intros [_ ?]. Qed.

Lemma od_length_del_lt (d : OrderedDict.t K (record V)) key r :
  OrderedDict.get d key = Some r → length (OrderedDict.del d key) < length d.
Proof.
  induction d as [|[k r'] d IH]; simpl; [done|].
  destruct (decide (k = key)) as [->|Hne].
  - intros _. pose proof (od_length_del_le d key). lia.
  - intros Hg. simpl. apply IH in Hg. lia.
Qed.

Lemma od_get_snoc_eq (d : OrderedDict.t K (record V)) key r :
  OrderedDict.get d key = None → OrderedDict.get (d ++ [(key, r)]) key = Some r.
Proof.
  induction d as [|[k r'] d IH]; simpl.
  - by rewrite decide_True.
  - destruct (decide (k = key)); [done | apply IH].
Qed.

(** The three outcomes of [insert], as one case analysis. *)
Lemma insert_cases now key v c :
  (insert now key v c
   = (Ret (),
      inc_write (set_entries
        ((key, Record_ (now + age_params c)%Z v)
           :: OrderedDict.del (entries c) key) c))
   ∧ (size c < max_size c)%Z)
  ∨ (∃ rest x,
       entries c = rest ++ [x] ∧ (max_size c ≤ size c)%Z
       ∧ insert now key v c
         = (Ret (),
            inc_write (set_entries
              ((key, Record_ (now + age_params c)%Z v)
                 :: OrderedDict.del rest key) (inc_overflow c))))
  ∨ (entries c = [] ∧ (max_size c ≤ 0)%Z
     ∧ insert now key v c = (Raise KeyError, inc_overflow c)).
Proof.
  destruct (Z.lt_ge_cases (size c) (max_size c)) as [Hlt|Hge].
  - left. by rewrite insert_below_capacity.
  - right. destruct (decide (entries c = [])) as [He|Hne].
    + right. rewrite insert_empty_at_capacity by done.
      unfold size in Hge. rewrite He in Hge. simpl in Hge. done.
    + left. destruct (exists_last Hne) as (rest & x & He).
      exists rest, x. by rewrite (insert_at_capacity _ _ _ _ rest x).
Qed.

Lemma insert_keys now key v c k :
  k ∈ OrderedDict.keys (entries (insert now key v c).2) →
  k = key ∨ k ∈ OrderedDict.keys (entries c).
Proof.
  destruct (insert_cases now key v c)
    as [[-> _]|[(rest & x & He & _ & ->)|(_ & _ & ->)]]; simpl.
  - rewrite elem_of_cons.
    intros [?|Hk]; [by left | right; by eapply od_keys_del_elem].
  - rewrite elem_of_cons.
    intros [?|Hk]; [by left | right]. apply od_keys_del_elem in Hk.
    rewrite He. unfold OrderedDict.keys. rewrite fmap_app, elem_of_app.
    by left.
  - by right.
Qed.

Lemma get_keys now key c k :
  k ∈ OrderedDict.keys (entries (get now key c).2) →
  k ∈ OrderedDict.keys (entries c).
Proof.
  unfold get. destruct (OrderedDict.get (entries c) key) as [r|]; [|done].
  destruct (validity r <? now)%Z; [|done]. simpl. apply od_keys_del_elem.
Qed.

(** A cache holds no key that its history has not inserted. *)
Lemma run_keys (ops : list (@op K V)) c k :
  k ∈ OrderedDict.keys (entries (run ops c)) →
  k ∈ OrderedDict.keys (entries c) ∨ k ∈ inserted_keys ops.
Proof.
  revert c. induction ops as [|o ops IH]; intros c; [by left|].
  simpl. intros Hk. apply IH in Hk as [Hk|Hk].
  - destruct o as [now key|now key v]; simpl in Hk.
    + left. by eapply get_keys.
    + apply insert_keys in Hk as [->|Hk]; [right | by left].
      unfold inserted_keys. simpl. apply list_elem_of_here.
  - right. unfold inserted_keys in *. destruct o; simpl; [done|].
    by apply list_elem_of_further.
Qed.

(** X1: a value that [insert] has stored is what [get] returns for its key
    until the lifetime has passed: up to and including the instant
    [now + age_params], a [get] is a hit, returns the value and changes
    nothing but the hit counter. *)
Theorem get_after_insert now now' key v c :
  (insert now key v c).1 = Ret () →
  (now' ≤ now + age_params c)%Z →
  get now' key (insert now key v c).2
  = (Some v, inc_hit (insert now key v c).2).
Proof.
  intros Hret Hnow.
  destruct (insert_cases now key v c)
    as [[Hi _]|[(rest & x & _ & _ & Hi)|(_ & _ & Hi)]];
    rewrite Hi in Hret |- *; [| |done]; unfold get; simpl;
    rewrite decide_True by done; simpl;
    by destruct (Z.ltb_spec (now + age_params c) now'); [lia|].
Qed.

(** X2: a key that the history of a cache never inserted is a miss: [get]
    returns absent and increments the miss counter only; the entries, the
    expiration counter and the hit counter stay as they are. *)
Theorem get_never_inserted name max age (ops : list (@op K V)) now key :
  key ∉ inserted_keys ops →
  get now key (run ops (new name max age))
  = (None, inc_miss (run ops (new name max age))).
Proof.
  intros Hkey. unfold get.
  destruct (OrderedDict.get (entries (run ops (new name max age))) key)
    as [r|] eqn:Hg; [|done].
  exfalso. assert (OrderedDict.get (entries (run ops (new name max age))) key
                   ≠ None) as Hne by by rewrite Hg.
  rewrite od_get_None in Hne. apply dec_stable in Hne.
  apply run_keys in Hne as [Hin|Hin]; [|done].
  by apply elem_of_nil in Hin.
Qed.

(** X3: reading does not refresh recency.  In a full cache, a hit on the
    tail entry leaves the order as it is, and the next insertion of another
    key evicts the entry that has just been read. *)
Theorem read_entry_is_still_evicted now now' key v c rest kt rt :
  OrderedDict.wf (entries c) →
  entries c = rest ++ [(kt, rt)] →
  (max_size c ≤ size c)%Z →
  (now ≤ validity rt)%Z →
  key ≠ kt →
  (get now kt c).1 = Some (value rt)
  ∧ entries (get now kt c).2 = entries c
  ∧ (insert now' key v (get now kt c).2).1 = Ret ()
  ∧ OrderedDict.get (entries (insert now' key v (get now kt c).2).2) kt = None.
Proof.
  intros Hwf He Hge Hval Hne.
  assert (get now kt c = (Some (value rt), inc_hit c)) as ->.
  { unfold get. rewrite He. rewrite He in Hwf.
    apply od_wf_snoc in Hwf as [_ Hkt]. rewrite od_get_snoc_eq by done.
    by destruct (Z.ltb_spec (validity rt) now); [lia|]. }
  simpl. rewrite (insert_at_capacity _ _ _ _ rest (kt, rt)) by done. simpl.
  split_and!; [done..|]. rewrite decide_False by done.
  rewrite od_get_del_ne by done. rewrite He in Hwf.
  by apply od_wf_snoc in Hwf as [_ ?].
Qed.

(** X4: an expiration is counted once.  After the [get] that purges an
    expired entry, another [get] of the same key, at any instant, is a plain
    miss: it increments the miss counter and nothing else. *)
Theorem expired_entry_purged_once now now' key c r :
  OrderedDict.get (entries c) key = Some r →
  (validity r < now)%Z →
  get now' key (get now key c).2 = (None, inc_miss (get now key c).2)
  ∧ metric_cache_expirations (get now' key (get now key c).2).2
    = S (metric_cache_expirations c).
Proof.
  intros Hg Hlt.
  assert (get now key c
          = (None, set_entries (OrderedDict.del (entries c) key)
                     (inc_expirations (inc_miss c)))) as ->.
  { unfold get. rewrite Hg.
    by destruct (Z.ltb_spec (validity r) now); [|lia]. }
  unfold get at 1 2. simpl. by rewrite od_get_del_eq.
Qed.

(** X5: an insertion below capacity evicts nothing: every other key keeps
    its record, and a key that was absent makes the cache one entry
    larger. *)
Theorem insert_below_capacity_keeps_others now key v c :
  (size c < max_size c)%Z →
  (insert now key v c).1 = Ret ()
  ∧ metric_cache_overflow (insert now key v c).2 = metric_cache_overflow c
  ∧ (∀ k, k ≠ key →
       OrderedDict.get (entries (insert now key v c).2) k
       = OrderedDict.get (entries c) k)
  ∧ (OrderedDict.get (entries c) key = None →
     size (insert now key v c).2 = (size c + 1)%Z).
Proof.
  intros Hlt. rewrite insert_below_capacity by done. simpl.
  split_and!; [done..| |].
  - intros k Hk. rewrite decide_False by done. by apply od_get_del_ne.
  - intros Hg. unfold size. simpl. rewrite od_del_absent by done. lia.
Qed.

Lemma get_counters now key c :
  metric_cache_get_hit (get now key c).2 + metric_cache_get_miss (get now key c).2
  = S (metric_cache_get_hit c + metric_cache_get_miss c)
  ∧ metric_cache_expirations (get now key c).2 + metric_cache_get_miss c
    ≤ metric_cache_get_miss (get now key c).2 + metric_cache_expirations c
  ∧ metric_cache_write (get now key c).2 = metric_cache_write c
  ∧ metric_cache_overflow (get now key c).2 = metric_cache_overflow c
  ∧ (size (get now key c).2 + Z.of_nat (metric_cache_expirations (get now key c).2)
     ≤ size c + Z.of_nat (metric_cache_expirations c))%Z.
Proof.
  unfold get, size.
  destruct (OrderedDict.get (entries c) key) as [r|] eqn:Hg; simpl;
    [|split_and!; lia].
  destruct (validity r <? now)%Z; simpl; split_and!; try lia.
  pose proof (od_length_del_lt _ _ _ Hg). lia.
Qed.

Lemma insert_counters now key v c :
  metric_cache_get_hit (insert now key v c).2 = metric_cache_get_hit c
  ∧ metric_cache_get_miss (insert now key v c).2 = metric_cache_get_miss c
  ∧ metric_cache_expirations (insert now key v c).2
    = metric_cache_expirations c
  ∧ metric_cache_write (insert now key v c).2 ≤ S (metric_cache_write c)
  ∧ metric_cache_overflow (insert now key v c).2
    ≤ S (metric_cache_overflow c).
Proof.
  destruct (insert_cases now key v c)
    as [[-> _]|[(rest & x & _ & _ & ->)|(_ & _ & ->)]]; simpl;
    split_and!; lia.
Qed.

Lemma run_counters (ops : list (@op K V)) c :
  metric_cache_get_hit (run ops c) + metric_cache_get_miss (run ops c)
  = metric_cache_get_hit c + metric_cache_get_miss c + count_gets ops
  ∧ metric_cache_expirations (run ops c) + metric_cache_get_miss c
    ≤ metric_cache_get_miss (run ops c) + metric_cache_expirations c
  ∧ metric_cache_write (run ops c) ≤ metric_cache_write c + count_inserts ops
  ∧ metric_cache_overflow (run ops c)
    ≤ metric_cache_overflow c + count_inserts ops.
Proof.
  revert c. induction ops as [|o ops IH]; intros c.
  { unfold count_inserts. simpl. split_and!; lia. }
  simpl. destruct (IH (step c o)) as (H1 & H2 & H3 & H4). clear IH.
  destruct o as [now key|now key v]; unfold count_inserts in *; simpl in *.
  - destruct (get_counters now key c) as (G1 & G2 & G3 & G4 & _).
    split_and!; lia.
  - destruct (insert_counters now key v c) as (I1 & I2 & I3 & I4 & I5).
    split_and!; lia.
Qed.

(** X6: the counters account for the calls.  After any history of a new
    cache, hits plus misses is the number of [get] calls, every expiration
    was also counted as a miss, and neither the write counter nor the
    overflow counter exceeds the number of [insert] calls. *)
Theorem counters_account_for_calls name max age (ops : list (@op K V)) :
  metric_cache_get_hit (run ops (new name max age))
  + metric_cache_get_miss (run ops (new name max age)) = count_gets ops
  ∧ metric_cache_expirations (run ops (new name max age))
    ≤ metric_cache_get_miss (run ops (new name max age))
  ∧ metric_cache_write (run ops (new name max age)) ≤ count_inserts ops
  ∧ metric_cache_overflow (run ops (new name max age)) ≤ count_inserts ops.
Proof.
  destruct (run_counters ops (new name max age)) as (H1 & H2 & H3 & H4).
  simpl in *. split_and!; lia.
Qed.

Lemma run_writes (ops : list (@op K V)) c :
  (1 ≤ max_size c)%Z →
  (size c + Z.of_nat (metric_cache_overflow c)
   + Z.of_nat (metric_cache_expirations c)
   ≤ Z.of_nat (metric_cache_write c))%Z →
  metric_cache_write (run ops c) = metric_cache_write c + count_inserts ops
  ∧ (size (run ops c) + Z.of_nat (metric_cache_overflow (run ops c))
     + Z.of_nat (metric_cache_expirations (run ops c))
     ≤ Z.of_nat (metric_cache_write (run ops c)))%Z.
Proof.
  revert c. induction ops as [|o ops IH]; intros c Hmax Hc.
  { unfold count_inserts. simpl. split; [lia | done]. }
  simpl. destruct o as [now key|now key v]; unfold count_inserts; simpl.
  - destruct (get_counters now key c) as (_ & _ & G3 & G4 & G5).
    destruct (IH (get now key c).2) as [H1 H2].
    + by rewrite get_max_size.
    + lia.
    + split; [|done]. rewrite H1, G3. done.
  - assert (metric_cache_write (insert now key v c).2
            = S (metric_cache_write c)
            ∧ (size (insert now key v c).2
               + Z.of_nat (metric_cache_overflow (insert now key v c).2)
               + Z.of_nat (metric_cache_expirations (insert now key v c).2)
               ≤ Z.of_nat (S (metric_cache_write c)))%Z) as [I1 I2].
    { destruct (insert_cases now key v c)
        as [[-> _]|[(rest & x & He & _ & ->)|(He & ? & _)]];
        unfold size in *; simpl.
      - pose proof (od_length_del_le (entries c) key). split; [done | lia].
      - pose proof (od_length_del_le rest key).
        rewrite He, length_app in Hc. simpl in Hc. split; [done | lia].
      - lia. }
    destruct (IH (insert now key v c).2) as [H1 H2].
    + by rewrite insert_max_size.
    + lia.
    + split; [|done]. rewrite H1, I1. unfold count_inserts. lia.
Qed.

(** X7: with room for at least one entry, every [insert] call is a write,
    and the writes pay for everything: the entries held, plus the entries
    evicted for capacity, plus the entries purged as expired, never exceed
    the number of writes. *)
Theorem writes_cover_entries name max age (ops : list (@op K V)) :
  (1 ≤ max)%Z →
  metric_cache_write (run ops (new name max age)) = count_inserts ops
  ∧ (size (run ops (new name max age))
     + Z.of_nat (metric_cache_overflow (run ops (new name max age)))
     + Z.of_nat (metric_cache_expirations (run ops (new name max age)))
     ≤ Z.of_nat (metric_cache_write (run ops (new name max age))))%Z.
Proof.
  intros Hmax.
  destruct (run_writes ops (new name max age)) as [H1 H2]; [done..|].
  split; [|done]. by rewrite H1.
Qed.

(** X8: first in, first out.  After inserting any number of distinct keys
    into a new cache with room for [max >= 1] entries, the cache holds the
    [max] keys inserted last, the most recent first; its size is the smaller
    of [max] and the number of keys, and each insertion beyond [max] has
    counted one overflow. *)
Theorem distinct_inserts_keep_most_recent name max age
    (l : list (Time * K * V)) :
  (1 ≤ max)%Z →
  NoDup (l.*1.*2) →
  OrderedDict.keys (entries (run (inserts l) (new name max age)))
  = take (Z.to_nat max) (reverse (l.*1.*2))
  ∧ size (run (inserts l) (new name max age))
    = Z.of_nat (Z.to_nat max `min` length l)
  ∧ metric_cache_overflow (run (inserts l) (new name max age))
    = length l - Z.to_nat max.
Proof.
  intros Hmax Hnd.
  destruct (inserts_distinct name max age l Hmax Hnd) as (Hkeys & Hov & _).
  split_and!; [done| |done].
  unfold size. f_equal.
  transitivity (length (OrderedDict.keys
                          (entries (run (inserts l) (new name max age))))).
  - unfold OrderedDict.keys. by rewrite length_fmap.
  - by rewrite Hkeys, length_take, length_reverse, !length_fmap.
Qed.

Lemma run_no_capacity (ops : list (@op K V)) c :
  (max_size c ≤ 0)%Z → entries c = [] →
  entries (run ops c) = []
  ∧ max_size (run ops c) = max_size c
  ∧ metric_cache_overflow (run ops c)
    = metric_cache_overflow c + count_inserts ops
  ∧ metric_cache_write (run ops c) = metric_cache_write c.
Proof.
  revert c. induction ops as [|o ops IH]; intros c Hmax He.
  { unfold count_inserts. simpl. split_and!; (done || lia). }
  simpl. destruct o as [now key|now key v]; unfold count_inserts; simpl.
  - assert (get now key c = (None, inc_miss c)) as ->
      by (unfold get; by rewrite He).
    simpl. by apply (IH (inc_miss c)).
  - rewrite insert_empty_at_capacity
      by (done || unfold size; rewrite He; simpl; lia).
    simpl. destruct (IH (inc_overflow c)) as (H1 & H2 & H3 & H4); [done..|].
    split_and!; [done..| |done]. rewrite H3. unfold count_inserts. simpl. lia.
Qed.

(** X9: a cache made with [max_size <= 0] never stores anything.  Whatever
    the history, it stays empty, every [insert] raises [KeyError] after
    incrementing the overflow counter, and no write is ever counted. *)
Theorem no_capacity_stores_nothing name max age (ops : list (@op K V))
    now key v :
  (max ≤ 0)%Z →
  entries (run ops (new name max age)) = []
  ∧ insert now key v (run ops (new name max age))
    = (Raise KeyError, inc_overflow (run ops (new name max age)))
  ∧ metric_cache_overflow (run ops (new name max age)) = count_inserts ops
  ∧ metric_cache_write (run ops (new name max age)) = 0.
Proof.
  intros Hmax.
  destruct (run_no_capacity ops (new name max age))
    as (H1 & H2 & H3 & H4); [done..|].
  split_and!; [done| |done..].
  apply insert_empty_at_capacity; [|done].
  unfold size. rewrite H1, H2. simpl. lia.
Qed.
End cache_histories.

Section cache_history_examples.
#[local] Open Scope Z_scope.

Lemma get_after_insert_witness :
  ExpiringCache.get 10 "c" (ExpiringCache.insert 0 "c" 3 Samples.full_ab).2
  = (Some 3,
     ExpiringCache.inc_hit (ExpiringCache.insert 0 "c" 3 Samples.full_ab).2).
Proof.
  apply (get_after_insert 0 10 "c" 3 Samples.full_ab).
  - reflexivity.
  - vm_compute. discriminate.
Defined.

Lemma get_never_inserted_witness :
  ExpiringCache.get 5 "z" Samples.full_ab
  = (None, ExpiringCache.inc_miss Samples.full_ab).
Proof.
  apply (get_never_inserted "forecasts" 2 10
           [ExpiringCache.Insert 0 "a" 1; ExpiringCache.Insert 1 "b" 2]
           5 "z").
  by_decision.
Defined.

Lemma read_entry_is_still_evicted_witness :
  (ExpiringCache.get 5 "a" Samples.full_ab).1 = Some 1
  ∧ OrderedDict.get
      (ExpiringCache.entries
         (ExpiringCache.insert 6 "c" 3
            (ExpiringCache.get 5 "a" Samples.full_ab).2).2) "a" = None.
Proof.
  destruct (read_entry_is_still_evicted 5 6 "c" 3 Samples.full_ab
              [("b", ExpiringCache.Record_ 11 2)] "a"
              (ExpiringCache.Record_ 10 1)) as (H1 & _ & _ & H4).
  - by_decision.
  - reflexivity.
  - vm_compute. discriminate.
  - vm_compute. discriminate.
  - discriminate.
  - split; [exact H1 | exact H4].
Defined.

Lemma expired_entry_purged_once_witness :
  ExpiringCache.metric_cache_expirations
    (ExpiringCache.get 12 "k"
       (ExpiringCache.get 11 "k" Samples.one_entry).2).2 = 1%nat.
Proof.
  destruct (expired_entry_purged_once 11 12 "k" Samples.one_entry
              (ExpiringCache.Record_ 10 7)) as [_ H].
  - reflexivity.
  - reflexivity.
  - exact H.
Defined.

Lemma insert_below_capacity_keeps_others_witness :
  OrderedDict.get
    (ExpiringCache.entries
       (ExpiringCache.insert 3 "z" 9 Samples.one_entry).2) "k"
  = Some (ExpiringCache.Record_ 10 7).
Proof.
  destruct (insert_below_capacity_keeps_others 3 "z" 9 Samples.one_entry)
    as (_ & _ & H & _).
  - reflexivity.
  - rewrite H; [reflexivity | discriminate].
Defined.

Lemma writes_cover_entries_witness :
  ExpiringCache.metric_cache_write Samples.full_ab = 2%nat.
Proof.
  destruct (writes_cover_entries (K:=string) (V:=Z) "forecasts" 2 10
              [ExpiringCache.Insert 0 "a" 1; ExpiringCache.Insert 1 "b" 2])
    as [H _].
  - lia.
  - exact H.
Defined.

Lemma distinct_inserts_keep_most_recent_witness :
  OrderedDict.keys
    (ExpiringCache.entries
       (ExpiringCache.run
          (ExpiringCache.inserts
             [(0, "a", 1); (1, "b", 2); (2, "c", 3); (3, "d", 4)])
          (ExpiringCache.new "forecasts" 2 10)))
  = ["d"; "c"].
Proof.
  destruct (distinct_inserts_keep_most_recent (K:=string) (V:=Z)
              "forecasts" 2 10
              [(0, "a", 1); (1, "b", 2); (2, "c", 3); (3, "d", 4)])
    as (-> & _).
  - lia.
  - by_decision.
  - reflexivity.
Defined.

Lemma no_capacity_stores_nothing_witness :
  ExpiringCache.insert 3 "b" 2
    (ExpiringCache.run [ExpiringCache.Insert 0 "a" 1; ExpiringCache.Get 1 "a"]
       Samples.no_room)
  = (Raise KeyError,
     ExpiringCache.inc_overflow
       (ExpiringCache.run
          [ExpiringCache.Insert 0 "a" 1; ExpiringCache.Get 1 "a"]
          Samples.no_room)).
Proof.
  destruct (no_capacity_stores_nothing (K:=string) (V:=Z) "forecasts" 0 10
              [ExpiringCache.Insert 0 "a" 1; ExpiringCache.Get 1 "a"]
              3 "b" 2) as (_ & H & _).
  - lia.
  - exact H.
Defined.
End cache_history_examples.

(** ** Extraction and resolution *)

Section extraction_extras.
Context (py : Library).
#[local] Open Scope Z_scope.

(** X10: a value that [fetch_current] returns is the value of a reading of
    the series whose interval has not ended, and every reading before it in
    the series has ended: it never returns the value of an ended reading,
    and never skips a current one. *)
Theorem fetch_current_value_is_current now (data : Json.t)
    (reports : list Json.t) (v : Json.t) :
  Json.getitem data "values" = Ret (Json.Array reports) →
  fetch_current py now data = Ret v →
  Json.is_None v = false →
  ∃ pre r post ends,
    reports = pre ++ r :: post
    ∧ Forall (ended py now) pre
    ∧ interval_end py r = Ret ends
    ∧ now < ends
    ∧ Json.getitem r "value" = Ret v.
Proof.
  unfold fetch_current. intros ->. simpl. intros Hv Hnn.
  induction reports as [|r reports IH]; cbn [first_current] in Hv.
  { injection Hv as <-. done. }
  destruct (interval_end py r) as [ends|e] eqn:He.
  - unfold interval_end in He.
    destruct (Json.getitem r "validTime") as [validTime|] eqn:Ht; [|done].
    simpl in He, Hv. rewrite He in Hv. simpl in Hv.
    destruct (Z.ltb_spec now ends) as [Hlt|Hge].
    + exists [], r, reports, ends. split_and!; [done..| |done|done].
      unfold interval_end. by rewrite Ht.
    + destruct (IH Hv) as (pre & r' & post & ends' & -> & Hpre & Hr & ? & ?).
      exists (r :: pre), r', post, ends'. split_and!; [done| |done..].
      constructor; [|done]. exists ends. split; [|done].
      unfold interval_end. by rewrite Ht.
  - unfold interval_end in He.
    destruct (Json.getitem r "validTime") as [validTime|]; [|done].
    simpl in He, Hv. by rewrite He in Hv.
Qed.
End extraction_extras.

Section extraction_extra_examples.
#[local] Open Scope Z_scope.

Lemma fetch_current_value_is_current_witness :
  ∃ pre r post ends,
    [Samples.reading Samples.before_noon (Json.Int 1);
     Samples.reading Samples.after_noon (Json.Int 2)]
    = pre ++ r :: post
    ∧ Forall (ended Samples.python 100) pre
    ∧ interval_end Samples.python r = Ret ends
    ∧ 100 < ends
    ∧ Json.getitem r "value" = Ret (Json.Int 2).
Proof.
  apply (fetch_current_value_is_current Samples.python 100
           (Samples.series "unit:degC"
              [Samples.reading Samples.before_noon (Json.Int 1);
               Samples.reading Samples.after_noon (Json.Int 2)])
           [Samples.reading Samples.before_noon (Json.Int 1);
            Samples.reading Samples.after_noon (Json.Int 2)]
           (Json.Int 2)); reflexivity.
Defined.
End extraction_extra_examples.

Section resolver_extras.
Implicit Types (w : World) (latlong : LatLong.t).

Lemma get_gridpoint_location_found status wfo x y latlong w :
  OrderedDict.get (gridpoint_memo w) latlong = None →
  get_gridpoint_location
    (Response status
       (Some (Json.Point
                (Some (Json.PointProperties (Some wfo) (Some x) (Some y))))))
    latlong w
  = (Ret (Some (GridpointLocation.Make wfo x y)),
     set_gridpoint_memo
       ((latlong, Some (GridpointLocation.Make wfo x y))
          :: make_room 65536 (gridpoint_memo w))
       (send (PointsRequest (LatLong.latitude latlong)
                (LatLong.longitude latlong)) w)).
Proof.
  intros Hmemo. unfold get_gridpoint_location, lru_cache. by rewrite Hmemo.
Qed.

(** X11: a resolution is fetched once.  For a pair that is not memoized, a
    points document with [cwa], [gridX] and [gridY] resolves to that grid
    location after one remote request and without counting a failure; the
    next request for the same pair returns the same location from the memo,
    without a remote request, whatever the remote would answer. *)
Theorem resolved_location_is_memoized w latlong remote remote'
    status wfo x y :
  OrderedDict.get (gridpoint_memo w) latlong = None →
  remote
  = Response status
      (Some (Json.Point
               (Some (Json.PointProperties (Some wfo) (Some x) (Some y))))) →
  (get_gridpoint_location remote latlong w).1
  = Ret (Some (GridpointLocation.Make wfo x y))
  ∧ GRIDPOINT_LOOKUP_FAILURES (get_gridpoint_location remote latlong w).2
    = GRIDPOINT_LOOKUP_FAILURES w
  ∧ requests_sent (get_gridpoint_location remote latlong w).2
    = requests_sent w
        ++ [PointsRequest (LatLong.latitude latlong)
              (LatLong.longitude latlong)]
  ∧ (get_gridpoint_location remote' latlong
       (get_gridpoint_location remote latlong w).2).1
    = Ret (Some (GridpointLocation.Make wfo x y))
  ∧ requests_sent
      (get_gridpoint_location remote' latlong
         (get_gridpoint_location remote latlong w).2).2
    = requests_sent (get_gridpoint_location remote latlong w).2.
Proof.
  intros Hmemo ->. rewrite get_gridpoint_location_found by done.
  rewrite (get_gridpoint_location_hit _ _ _
             (Some (GridpointLocation.Make wfo x y)))
    by (simpl; by rewrite decide_True).
  done.
Qed.
End resolver_extras.

Lemma resolved_location_is_memoized_witness :
  (get_gridpoint_location NetworkError Samples.berkshires
     (get_gridpoint_location Samples.points_found Samples.berkshires
        initial_world).2).1
  = Ret (Some Samples.albany).
Proof.
  destruct (resolved_location_is_memoized initial_world Samples.berkshires
              Samples.points_found NetworkError 200%Z "ALY" 30%Z 60%Z)
    as (_ & _ & _ & H & _).
  - reflexivity.
  - reflexivity.
  - exact H.
Defined.

(** ** Reports and the cache *)

Section report_extras.
Context (py : Library).
Import ExpiringCache.
Implicit Types (w : World) (m : Measure.t) (location : GridpointLocation.t).
#[local] Opaque prom_units measures.

Lemma get_weather_hit clock remote location w r :
  OrderedDict.get (entries (weather_cache w)) location = Some r →
  (clock 0%nat ≤ validity r)%Z →
  get_weather py clock remote location w
  = (Ret (value r), set_weather_cache (inc_hit (weather_cache w)) w).
Proof.
  intros Hg Hval. unfold get_weather, bind, weather_cache_get.
  assert (get (clock 0) location (weather_cache w)
          = (Some (value r), inc_hit (weather_cache w))) as ->; [|done].
  unfold get. rewrite Hg.
  by destruct (Z.ltb_spec (validity r) (clock 0%nat)); [lia|].
Qed.

(** X12: a cached report is served as it is.  When the cache holds an entry
    for the location that has not expired, [get_weather] returns the stored
    report and only counts a cache hit: no request is sent, no report is
    built, no other counter moves and the entries stay as they are. *)
Theorem get_weather_serves_cached clock remote location w r :
  OrderedDict.get (entries (weather_cache w)) location = Some r →
  (clock 0%nat ≤ validity r)%Z →
  get_weather py clock remote location w
  = (Ret (value r), set_weather_cache (inc_hit (weather_cache w)) w).
Proof.
  intros Hg Hval. unfold get_weather, bind, weather_cache_get, get.
  rewrite Hg. by destruct (Z.ltb_spec (validity r) (clock 0%nat)); [lia|].
Qed.

(** X13: within the lifetime of a report, a location costs one remote
    request.  After a request that missed the cache and built a report, a
    second request for the same location, made no later than the expiry of
    the entry, returns the same report and sends nothing, whatever the
    remote would answer. *)
Theorem second_request_is_served_from_cache clock clock' status data remote'
    location w report :
  (get (clock 0) location (weather_cache w)).1 = None →
  (1 ≤ max_size (weather_cache w))%Z →
  (clock' 0%nat
   ≤ clock (S (length measures)) + age_params (weather_cache w))%Z →
  (get_weather py clock (Response status (Some data)) location w).1
  = Ret report →
  (get_weather py clock' remote' location
     (get_weather py clock (Response status (Some data)) location w).2).1
  = Ret report
  ∧ requests_sent
      (get_weather py clock' remote' location
         (get_weather py clock (Response status (Some data)) location w).2).2
    = requests_sent w
        ++ [GridpointsRequest (GridpointLocation.wfo location)
              (GridpointLocation.x location) (GridpointLocation.y location)].
Proof.
  intros Hmiss Hmax Hnow.
  destruct (get_weather_miss_json py clock status data location w Hmiss Hmax)
    as (w3 & Hgrow & _ & _ & -> & Hcached).
  destruct (gauges py clock 1 data measures) as [report'|e]; [|done].
  intros [= ->]. cbn [fst snd].
  rewrite (get_weather_hit clock' remote' location
             (set_weather_cache _ w3) _ (Hcached report)) by done.
  cbn [fst snd value requests_sent set_weather_cache].
  split; [done|]. by rewrite (grow_requests _ _ Hgrow).
Qed.

Lemma gauge_Some now data m g :
  gauge py now data m = Ret (Some g) →
  ∃ value unit,
    current_value py now data m = Ret value
    ∧ Json.is_None value = false
    ∧ OrderedDict.get prom_units (Measure.unit m) = Some unit
    ∧ g.1 = gauge_name m unit
    ∧ (converted ← UnitConversion.convert unit value; py_float py converted)
      = Ret g.2.
Proof.
  unfold gauge, turn.
  destruct (current_value py now data m) as [value|e]; simpl;
    [|by destruct e].
  destruct (OrderedDict.get prom_units (Measure.unit m)) as [unit|]; [|done].
  destruct (Json.is_None value) eqn:Hnn; [done|].
  destruct (UnitConversion.convert unit value) as [converted|e] eqn:Hc;
    simpl; [|by destruct e].
  destruct (py_float py converted) as [v|e] eqn:Hf; simpl; [|by destruct e].
  intros [= <-]. exists value, unit. rewrite Hc. simpl. by rewrite Hf.
Qed.

(** X14: nothing but catalog measures reaches a report.  Every gauge of a
    report that [get_weather] builds is the gauge of a measure of the
    catalog: its name is made of the measure's name and the normalized unit
    name, and its value is the current value of the measure's series,
    converted by the converter of the measure's unit.  No name occurs twice,
    and there are at most as many gauges as measures. *)
Theorem report_holds_catalog_gauges_only clock status data location w report :
  (get (clock 0) location (weather_cache w)).1 = None →
  (1 ≤ max_size (weather_cache w))%Z →
  (get_weather py clock (Response status (Some data)) location w).1
  = Ret report →
  NoDup report.*1
  ∧ length report ≤ length measures
  ∧ ∀ n v, (n, v) ∈ report →
      ∃ i m value unit,
        measures !! i = Some m
        ∧ current_value py (clock (S i)) data m = Ret value
        ∧ Json.is_None value = false
        ∧ OrderedDict.get prom_units (Measure.unit m) = Some unit
        ∧ n = gauge_name m unit
        ∧ (converted ← UnitConversion.convert unit value;
           py_float py converted) = Ret v.
Proof.
  intros Hmiss Hmax.
  destruct (get_weather_miss_json py clock status data location w Hmiss Hmax)
    as (w3 & _ & _ & _ & -> & _).
  destruct (gauges py clock 1 data measures) as [report'|e] eqn:Hr; [|done].
  intros [= ->]. split_and!.
  - eapply sublist_NoDup; [apply measures_gauge_names_distinct|].
    by eapply gauges_sublist.
  - pose proof (sublist_length _ _ (gauges_sublist py clock 1 data measures
                                      _ Hr)) as Hl.
    rewrite length_fmap in Hl. etrans; [exact Hl|].
    apply gauge_names_length.
  - intros n v Hin.
    destruct (gauges_elem py _ _ _ _ _ _ Hr Hin) as (i & m & Hi & Hg).
    apply gauge_Some in Hg as (value & unit & ? & ? & ? & ? & ?).
    by exists i, m, value, unit.
Qed.

Lemma raising_turns_no_properties clock i data ms :
  Json.getitem data "properties" = Raise KeyError →
  raising_turns py clock i data ms = length ms
  ∧ gauges py clock i data ms = Ret [].
Proof.
  intros Hp.
  assert (∀ now m, turn py now data m = Raise KeyError) as Hturn.
  { intros now m. unfold turn, current_value, series_of. by rewrite Hp. }
  revert i. induction ms as [|m ms IH]; intros i; [done|].
  cbn [raising_turns]. rewrite gauges_cons. unfold gauge.
  rewrite Hturn. simpl. destruct (IH (S i)) as [-> ->]. done.
Qed.

(** X15: every turn that raises is counted as a processing failure.  A
    request that misses the cache and gets a JSON document increments the
    processing-failure counter by the number of turns of the loop that
    raise, whatever they raise, the turn that leaves the loop included, and
    leaves the forecast-lookup failure counter as it is; a document without
    ["properties"] counts one failure for each measure of the catalog and
    yields the empty report. *)
Theorem processing_failures_count_raising_turns clock status data location w :
  (get (clock 0) location (weather_cache w)).1 = None →
  (1 ≤ max_size (weather_cache w))%Z →
  FORECAST_PROCESSING_FAILURES
    (get_weather py clock (Response status (Some data)) location w).2
  = FORECAST_PROCESSING_FAILURES w + raising_turns py clock 1 data measures
  ∧ FORECAST_LOOKUP_FAILURES
      (get_weather py clock (Response status (Some data)) location w).2
    = FORECAST_LOOKUP_FAILURES w
  ∧ (Json.getitem data "properties" = Raise KeyError →
     raising_turns py clock 1 data measures = length measures
     ∧ (get_weather py clock (Response status (Some data)) location w).1
       = Ret []).
Proof.
  intros Hmiss Hmax.
  destruct (get_weather_miss_json py clock status data location w Hmiss Hmax)
    as (w3 & Hgrow & _ & Hcount & Hrun & _).
  rewrite Hrun. split_and!.
  - by destruct (gauges py clock 1 data measures).
  - destruct (gauges py clock 1 data measures); simpl;
      by rewrite (grow_lookup _ _ Hgrow).
  - intros Hp.
    destruct (raising_turns_no_properties clock 1 data measures Hp)
      as [-> ->].
    done.
Qed.

(** X20: the first exception that the loop does not catch ends the request.
    When a request that misses the cache and gets a JSON document raises,
    the exception is not a [KeyError]; it is the exception raised by the
    turn of a measure of the catalog, every measure before which had its
    turn returned or caught; and nothing is inserted into the cache, which
    stays as the probe left it. *)
Theorem first_uncaught_exception_ends_the_request clock status data location
    w e :
  (get (clock 0) location (weather_cache w)).1 = None →
  (1 ≤ max_size (weather_cache w))%Z →
  (get_weather py clock (Response status (Some data)) location w).1
  = Raise e →
  e ≠ KeyError
  ∧ (∃ j m,
       measures !! j = Some m
       ∧ turn py (clock (S j)) data m = Raise e
       ∧ ∀ j' m', j' < j → measures !! j' = Some m' →
           ∃ g, gauge py (clock (S j')) data m' = Ret g)
  ∧ weather_cache
      (get_weather py clock (Response status (Some data)) location w).2
    = (get (clock 0) location (weather_cache w)).2
  ∧ metric_cache_write
      (weather_cache
         (get_weather py clock (Response status (Some data)) location w).2)
    = metric_cache_write (weather_cache w).
Proof.
  intros Hmiss Hmax.
  destruct (get_weather_miss_json py clock status data location w Hmiss Hmax)
    as (w3 & Hgrow & _ & _ & -> & _).
  destruct (gauges py clock 1 data measures) as [report|e'] eqn:Hr; [done|].
  intros [= ->]. simpl.
  apply gauges_raise in Hr as (Hne & j & m & Hj & Hraise & Hbefore).
  destruct (get_miss_entries _ _ _ Hmiss) as (_ & Hwr & _).
  rewrite (grow_cache _ _ Hgrow). simpl.
  split_and!; [done| |done|done].
  by exists j, m.
Qed.
End report_extras.

Section report_extra_examples.
#[local] Open Scope Z_scope.
#[local] Set Warnings "-inexact-float".

Lemma get_weather_serves_cached_witness :
  (get_weather Samples.python Scenarios.a_minute_later NetworkError
     Samples.albany
     (get_weather Samples.python Samples.noon Samples.forecast_ok
        Samples.albany initial_world).2).1
  = Ret [("weather_dewpoint_celsius", 12.5%float);
         ("weather_relative_humidity_ratio", 0.5%float)].
Proof.
  rewrite (get_weather_serves_cached Samples.python Scenarios.a_minute_later
             NetworkError Samples.albany _
             (ExpiringCache.Record_ 300000000
                [("weather_dewpoint_celsius", 12.5%float);
                 ("weather_relative_humidity_ratio", 0.5%float)])).
  - reflexivity.
  - reflexivity.
  - vm_compute. discriminate.
Defined.

Lemma second_request_is_served_from_cache_witness :
  requests_sent
    (get_weather Samples.python Scenarios.a_minute_later NetworkError
       Samples.albany
       (get_weather Samples.python Samples.noon Samples.forecast_ok
          Samples.albany initial_world).2).2
  = [GridpointsRequest "ALY" 30 60].
Proof.
  destruct (second_request_is_served_from_cache Samples.python Samples.noon
              Scenarios.a_minute_later 200 Samples.forecast_document
              NetworkError Samples.albany initial_world
              [("weather_dewpoint_celsius", 12.5%float);
               ("weather_relative_humidity_ratio", 0.5%float)]) as [_ H].
  - reflexivity.
  - vm_compute. discriminate.
  - vm_compute. discriminate.
  - reflexivity.
  - exact H.
Defined.

Lemma report_holds_catalog_gauges_only_witness :
  NoDup [("weather_dewpoint_celsius", 12.5%float);
         ("weather_relative_humidity_ratio", 0.5%float)].*1
  ∧ (length [("weather_dewpoint_celsius", 12.5%float);
             ("weather_relative_humidity_ratio", 0.5%float)]
     ≤ length measures)%nat.
Proof.
  destruct (report_holds_catalog_gauges_only Samples.python Samples.noon 200
              Samples.forecast_document Samples.albany initial_world
              [("weather_dewpoint_celsius", 12.5%float);
               ("weather_relative_humidity_ratio", 0.5%float)])
    as (H1 & H2 & _).
  - reflexivity.
  - vm_compute. discriminate.
  - reflexivity.
  - split; [exact H1 | exact H2].
Defined.

Lemma first_uncaught_exception_ends_the_request_witness :
  OverflowError ≠ KeyError
  ∧ ExpiringCache.entries
      (weather_cache
         (get_weather Samples.python Samples.noon
            (Response 200 (Some Samples.forecast_huge_humidity))
            Samples.albany initial_world).2) = [].
Proof.
  destruct (first_uncaught_exception_ends_the_request Samples.python
              Samples.noon 200 Samples.forecast_huge_humidity Samples.albany
              initial_world OverflowError) as (H1 & _ & H2 & _).
  - reflexivity.
  - vm_compute. discriminate.
  - reflexivity.
  - split; [exact H1|]. rewrite H2. reflexivity.
Defined.

Lemma processing_failures_count_raising_turns_witness :
  FORECAST_PROCESSING_FAILURES
    (get_weather Samples.python Samples.noon
       (Response 200 (Some Samples.forecast_huge_humidity)) Samples.albany
       initial_world).2 = 4%nat.
Proof.
  destruct (processing_failures_count_raising_turns Samples.python
              Samples.noon 200 Samples.forecast_huge_humidity Samples.albany
              initial_world) as (H & _).
  - reflexivity.
  - vm_compute. discriminate.
  - etrans; [exact H | reflexivity].
Defined.
End report_extra_examples.

(** ** The route and the life of the process *)

Section keeping.
Context (P : World → Prop).

Lemma keeps_ret {A} (a : A) : keeps P (ret a).
Proof. by intros w. Qed.

Lemma keeps_raise {A} e : keeps P (raise (A:=A) e).
Proof. by intros w. Qed.

Lemma keeps_lift {A} (o : outcome A) : keeps P (lift o).
Proof. by intros w. Qed.

Lemma keeps_item {A} (o : option A) : keeps P (item o).
Proof. destruct o; [apply keeps_ret | apply keeps_raise]. Qed.

Lemma keeps_modify (f : World → World) :
  (∀ w, P w → P (f w)) → keeps P (modify f).
Proof. intros Hf w. apply Hf. Qed.

Lemma keeps_bind {A B} (m : M A) (f : A → M B) :
  keeps P m → (∀ a, keeps P (f a)) → keeps P (bind m f).
Proof.
  intros Hm Hf w Hw. unfold bind. specialize (Hm w Hw).
  destruct (m w) as [[a|e] w']; [by apply Hf | done].
Qed.

Lemma keeps_count_exceptions {A} counted (inc : World → World) (body : M A) :
  (∀ w, P w → P (inc w)) → keeps P body →
  keeps P (count_exceptions counted inc body).
Proof.
  intros Hinc Hbody w Hw. unfold count_exceptions. specialize (Hbody w Hw).
  destruct (body w) as [[a|e] w']; [done|]. simpl.
  destruct (counted e); [by apply Hinc | done].
Qed.

Lemma keeps_try_except_KeyError {A} (body handler : M A) :
  keeps P body → keeps P handler → keeps P (try_except_KeyError body handler).
Proof.
  intros Hbody Hhandler w Hw. unfold try_except_KeyError.
  specialize (Hbody w Hw).
  destruct (body w) as [[a|[]] w']; try done. by apply Hhandler.
Qed.
End keeping.

Section bounded_memory.
Context (py : Library).
Import ExpiringCache.

Lemma memory_bounded_frame (f : World → World) :
  (∀ w, weather_cache (f w) = weather_cache w) →
  (∀ w, gridpoint_memo (f w) = gridpoint_memo w) →
  ∀ w, memory_bounded w → memory_bounded (f w).
Proof. intros Hc Hm w. unfold memory_bounded. by rewrite Hc, Hm. Qed.

Lemma od_popitem_last_length {K V} (d rest : OrderedDict.t K V) x :
  OrderedDict.popitem_last d = Some (x, rest) → length d = S (length rest).
Proof.
  destruct (decide (d = [])) as [->|Hne]; [done|].
  destruct (exists_last Hne) as (r & y & ->).
  rewrite od_popitem_last_snoc. intros [= -> ->].
  rewrite length_app. simpl. lia.
Qed.

Lemma od_del_shrinks {K V} `{EqDecision K} (d : OrderedDict.t K V) key v :
  OrderedDict.get d key = Some v → length (OrderedDict.del d key) < length d.
Proof.
  induction d as [|[k v'] d IH]; simpl; [done|].
  destruct (decide (k = key)) as [->|Hne].
  - intros _. pose proof (od_length_del_le d key). lia.
  - intros Hg. simpl. apply IH in Hg. lia.
Qed.

Lemma make_room_length {B} (memo : OrderedDict.t LatLong.t B) :
  (Z.of_nat (length memo) ≤ 65536)%Z →
  (Z.of_nat (S (length (make_room 65536 memo))) ≤ 65536)%Z.
Proof.
  intros Hlen. unfold make_room. case_decide; [|lia].
  destruct (OrderedDict.popitem_last memo) as [[x rest]|] eqn:Hpop.
  - apply od_popitem_last_length in Hpop. lia.
  - destruct memo; [simpl in *; lia | simpl in Hpop].
    by destruct (OrderedDict.popitem_last memo) as [[??]|].
Qed.

Lemma keeps_requests_get_json {J} r (remote : response J) :
  keeps memory_bounded (requests_get_json r remote).
Proof. intros w. by apply memory_bounded_frame. Qed.

Lemma keeps_process_measures clock data ms i reg :
  keeps memory_bounded (process_measures py clock i data ms reg).
Proof.
  intros w Hw.
  pose proof (process_measures_grows py clock data ms i reg w) as Hgrow.
  unfold memory_bounded.
  by rewrite (grow_cache _ _ Hgrow), (grow_memo _ _ Hgrow).
Qed.

Lemma keeps_weather_cache_get now location :
  keeps memory_bounded (weather_cache_get now location).
Proof.
  intros w (Hmax & Hsize & Hmemo). unfold weather_cache_get, memory_bounded.
  simpl. rewrite get_max_size.
  pose proof (get_size_le now location (weather_cache w)).
  split_and!; [done | lia | done].
Qed.

Lemma keeps_weather_cache_insert now location registry :
  keeps memory_bounded (weather_cache_insert now location registry).
Proof.
  intros w (Hmax & Hsize & Hmemo). unfold weather_cache_insert, memory_bounded.
  simpl. rewrite insert_max_size. split_and!; [done| |done].
  pose proof (step_bounded (weather_cache w) (Insert now location registry))
    as Hb.
  unfold bounded in Hb. simpl in Hb. rewrite insert_max_size in Hb. lia.
Qed.

Lemma keeps_get_weather clock remote location :
  keeps memory_bounded (get_weather py clock remote location).
Proof.
  unfold get_weather. apply keeps_bind; [apply keeps_weather_cache_get|].
  intros [registry|]; [apply keeps_ret|].
  apply keeps_bind.
  { apply keeps_count_exceptions; [by apply memory_bounded_frame|].
    apply keeps_requests_get_json. }
  intros data. apply keeps_bind; [apply keeps_process_measures|].
  intros registry.
  apply keeps_bind; [apply keeps_weather_cache_insert | intros; apply keeps_ret].
Qed.

Lemma keeps_resolve_gridpoint remote latlong :
  keeps memory_bounded (resolve_gridpoint remote latlong).
Proof.
  unfold resolve_gridpoint. apply keeps_bind.
  { apply keeps_count_exceptions; [by apply memory_bounded_frame|].
    apply keeps_requests_get_json. }
  intros data. apply keeps_try_except_KeyError; [|apply keeps_ret].
  apply keeps_count_exceptions; [by apply memory_bounded_frame|].
  repeat (apply keeps_bind; [apply keeps_item | intros ?]).
  apply keeps_ret.
Qed.

Lemma keeps_get_gridpoint_location remote latlong :
  keeps memory_bounded (get_gridpoint_location remote latlong).
Proof.
  intros w Hw. unfold get_gridpoint_location, lru_cache.
  destruct (OrderedDict.get (gridpoint_memo w) latlong) as [b|] eqn:Hg.
  - destruct Hw as (Hmax & Hsize & Hmemo). unfold memory_bounded. simpl.
    split_and!; [done..|].
    pose proof (od_del_shrinks _ _ _ Hg). lia.
  - pose proof (keeps_resolve_gridpoint remote latlong w Hw) as Hw'.
    destruct (resolve_gridpoint remote latlong w) as [[b|e] w']; [|done].
    destruct Hw' as (Hmax & Hsize & Hmemo). unfold memory_bounded. simpl.
    split_and!; [done..|]. by apply make_room_length.
Qed.

Lemma keeps_weather args clock points forecast :
  keeps memory_bounded (weather py args clock points forecast).
Proof.
  unfold weather. apply keeps_bind.
  { apply keeps_try_except_KeyError; [|apply keeps_ret].
    repeat (apply keeps_bind; [apply keeps_item | intros ?]).
    apply keeps_ret. }
  intros [location|]; [|apply keeps_ret].
  apply keeps_bind; [apply keeps_get_gridpoint_location|].
  intros [gridpoint|]; [|apply keeps_ret].
  apply keeps_bind; [apply keeps_get_weather | intros; apply keeps_ret].
Qed.

(** X16: the process keeps its memory bounded.  After any sequence of
    [/weather] requests, whatever their parameters, the answers of the remote
    endpoints and the ways the handlers end, the forecast cache holds at
    most 1024 reports and the memo of resolved coordinates at most 65536
    pairs. *)
Theorem memory_stays_bounded (calls : list call) :
  (size (weather_cache (serve py calls initial_world)) ≤ 1024)%Z
  ∧ (Z.of_nat (length (gridpoint_memo (serve py calls initial_world)))
     ≤ 65536)%Z.
Proof.
  assert (∀ w, memory_bounded w → memory_bounded (serve py calls w))
    as Hserve.
  { induction calls as [|c calls IH]; intros w Hw; [done|].
    simpl. apply IH. by apply keeps_weather. }
  assert (memory_bounded initial_world) as H0.
  { unfold memory_bounded, size. simpl. split_and!; [done | lia | lia]. }
  by destruct (Hserve _ H0) as (_ & H1 & H2).
Qed.
End bounded_memory.

Section route.
Context (py : Library).
Import ExpiringCache.
Implicit Types (w : World) (args : gmap string string).

Lemma weather_without_parameters args clock points forecast w :
  args !! "latitude" = None ∨ args !! "longitude" = None →
  (weather py args clock points forecast w).1
  = Ret (HttpResponse 400 None (Text missing_parameters)).
Proof.
  intros Hargs. unfold weather, bind, try_except_KeyError, item, ret, raise.
  destruct (args !! "latitude") as [lat|], (args !! "longitude") as [long|];
    try done.
  by destruct Hargs.
Qed.

(** X17: a request without [latitude] or without [longitude] is answered
    400 with the message about the parameters, and nothing else happens: no
    remote request, no counter, no change of the cache or of the memo. *)
Theorem weather_missing_parameter args clock points forecast w :
  args !! "latitude" = None ∨ args !! "longitude" = None →
  weather py args clock points forecast w
  = (Ret (HttpResponse 400 None (Text missing_parameters)), w).
Proof.
  intros Hargs. unfold weather, bind, try_except_KeyError, item, ret, raise.
  destruct (args !! "latitude") as [lat|]; [|done].
  destruct (args !! "longitude") as [long|]; [|done].
  by destruct Hargs.
Qed.

Lemma weather_with_parameters args clock points forecast w lat long :
  args !! "latitude" = Some lat →
  args !! "longitude" = Some long →
  weather py args clock points forecast w
  = match get_gridpoint_location points (LatLong.Make lat long) w with
    | (Ret None, w') =>
        (Ret (HttpResponse 400 None (Text unknown_location)), w')
    | (Ret (Some gridpoint), w') =>
        match get_weather py clock forecast gridpoint w' with
        | (Ret registry, w'') =>
            (Ret (HttpResponse 200 (Some "text/plain") (Metrics registry)),
             w'')
        | (Raise e, w'') => (Raise e, w'')
        end
    | (Raise e, w') => (Raise e, w')
    end.
Proof.
  intros Hlat Hlong.
  unfold weather, bind, try_except_KeyError, item, ret, raise.
  rewrite Hlat, Hlong.
  destruct (get_gridpoint_location _ _ w) as [[[gridpoint|]|e] w']; try done.
Qed.


(** X19: the whole route.  With both parameters, coordinates that are not
    memoized and that the points endpoint resolves, no current report for
    the resolved location, and a JSON forecast document, the handler ends
    as the loop over the measures ends: with the answer 200, content type
    [text/plain] and the exposition of the report built from the document,
    or with the exception that left the loop; either way exactly two remote
    requests have been sent, to the points endpoint and then to the
    gridpoints endpoint of the resolved location. *)
Theorem weather_serves_report args clock status status' wfo x y data w
    lat long :
  args !! "latitude" = Some lat →
  args !! "longitude" = Some long →
  OrderedDict.get (gridpoint_memo w) (LatLong.Make lat long) = None →
  (get (clock 0) (GridpointLocation.Make wfo x y) (weather_cache w)).1 = None →
  (1 ≤ max_size (weather_cache w))%Z →
  (weather py args clock
     (Response status
        (Some (Json.Point
                 (Some (Json.PointProperties (Some wfo) (Some x) (Some y))))))
     (Response status' (Some data)) w).1
  = ((λ report, HttpResponse 200 (Some "text/plain") (Metrics report))
       <$> gauges py clock 1 data measures)
  ∧ requests_sent
      (weather py args clock
         (Response status
            (Some (Json.Point
                     (Some (Json.PointProperties (Some wfo) (Some x)
                              (Some y))))))
         (Response status' (Some data)) w).2
    = requests_sent w ++ [PointsRequest lat long; GridpointsRequest wfo x y].
Proof.
  intros Hlat Hlong Hmemo Hmiss Hmax.
  rewrite (weather_with_parameters _ _ _ _ _ lat long) by done.
  rewrite get_gridpoint_location_found by done.
  set (w1 := set_gridpoint_memo _ _).
  destruct (get_weather_miss_json py clock status' data
              (GridpointLocation.Make wfo x y) w1)
    as (w3 & Hgrow & _ & _ & -> & _); [done..|].
  destruct (gauges py clock 1 data measures) as [report|e];
    cbn [fst snd fmap outcome_fmap requests_sent set_weather_cache];
    rewrite (grow_requests _ _ Hgrow); simpl; by rewrite <- app_assoc.
Qed.
End route.

Section route_examples.
#[local] Open Scope Z_scope.

Lemma weather_missing_parameter_witness :
  weather Samples.python Scenarios.no_longitude Samples.noon Samples.points_found
    Samples.forecast_ok initial_world
  = (Ret (HttpResponse 400 None (Text missing_parameters)), initial_world).
Proof.
  apply weather_missing_parameter. right. reflexivity.
Defined.


Lemma weather_serves_report_witness :
  requests_sent
    (weather Samples.python Scenarios.here Samples.noon Samples.points_found
       Samples.forecast_ok initial_world).2
  = [PointsRequest "42.45" "-73.25"; GridpointsRequest "ALY" 30 60].
Proof.
  destruct (weather_serves_report Samples.python Scenarios.here Samples.noon 200 200
              "ALY" 30 60 Samples.forecast_document initial_world
              "42.45" "-73.25") as [_ H].
  - reflexivity.
  - reflexivity.
  - reflexivity.
  - reflexivity.
  - vm_compute. discriminate.
  - exact H.
Defined.

End route_examples.

Section life_of_the_process.
Context (py : Library).
Import ExpiringCache.
#[local] Opaque prom_units measures.
Implicit Types (w : World) (location : GridpointLocation.t).

(** X21: a stale report is never served.  When the entry of the location
    has expired, [get_weather] counts the expiration, purges the entry and
    sends one request; the request ends as the loop over the measures of
    the document it gets ends.  When the loop returns a report, that report
    is stored with a new expiry and is the one returned; when the loop is
    left by an exception, the cache holds no report for the location. *)
Theorem stale_report_is_rebuilt clock status data location w r :
  OrderedDict.get (entries (weather_cache w)) location = Some r →
  (validity r < clock 0%nat)%Z →
  (1 ≤ max_size (weather_cache w))%Z →
  (get_weather py clock (Response status (Some data)) location w).1
  = gauges py clock 1 data measures
  ∧ (∀ report,
       gauges py clock 1 data measures = Ret report →
       OrderedDict.get
         (entries
            (weather_cache
               (get_weather py clock (Response status (Some data))
                  location w).2))
         location
       = Some (Record_ (clock (S (length measures))
                        + age_params (weather_cache w))%Z report))
  ∧ (∀ e,
       gauges py clock 1 data measures = Raise e →
       OrderedDict.get
         (entries
            (weather_cache
               (get_weather py clock (Response status (Some data))
                  location w).2))
         location
       = None)
  ∧ metric_cache_expirations
      (weather_cache
         (get_weather py clock (Response status (Some data)) location w).2)
    = S (metric_cache_expirations (weather_cache w))
  ∧ requests_sent
      (get_weather py clock (Response status (Some data)) location w).2
    = requests_sent w
        ++ [GridpointsRequest (GridpointLocation.wfo location)
              (GridpointLocation.x location) (GridpointLocation.y location)].
Proof.
  intros Hg Hlt Hmax.
  assert (get (clock 0) location (weather_cache w)
          = (None,
             set_entries (OrderedDict.del (entries (weather_cache w)) location)
               (inc_expirations (inc_miss (weather_cache w))))) as Hprobe.
  { unfold get. rewrite Hg.
    by destruct (Z.ltb_spec (validity r) (clock 0%nat)); [|lia]. }
  destruct (get_weather_miss_json py clock status data location w)
    as (w3 & Hgrow & _ & _ & -> & Hcached); [by rewrite Hprobe | done |].
  destruct (gauges py clock 1 data measures) as [report|e];
    cbn [fst snd weather_cache set_weather_cache requests_sent].
  - split_and!; [done | by intros ? [= <-] | done | |].
    + destruct (insert_counters (clock (S (length measures))) location
                  report (get (clock 0) location (weather_cache w)).2)
        as (_ & _ & -> & _).
      by rewrite Hprobe.
    + by rewrite (grow_requests _ _ Hgrow).
  - rewrite (grow_cache _ _ Hgrow), (grow_requests _ _ Hgrow). simpl.
    rewrite Hprobe. simpl.
    split_and!; [done | done | | done | done].
    intros _ _. apply od_get_del_eq.
Qed.

Lemma serve_app (l1 l2 : list call) w :
  serve py (l1 ++ l2) w = serve py l2 (serve py l1 w).
Proof. unfold serve. apply foldl_app. Qed.

(** One more request for coordinates that are resolved and whose report is
    current. *)
Lemma weather_served args clock points forecast w lat long location r :
  args !! "latitude" = Some lat →
  args !! "longitude" = Some long →
  OrderedDict.get (gridpoint_memo w) (LatLong.Make lat long)
  = Some (Some location) →
  OrderedDict.get (entries (weather_cache w)) location = Some r →
  (clock 0%nat ≤ validity r)%Z →
  (weather py args clock points forecast w).1
  = Ret (HttpResponse 200 (Some "text/plain") (Metrics (value r)))
  ∧ requests_sent (weather py args clock points forecast w).2 = requests_sent w
  ∧ OrderedDict.get
      (gridpoint_memo (weather py args clock points forecast w).2)
      (LatLong.Make lat long)
    = Some (Some location)
  ∧ OrderedDict.get
      (entries (weather_cache (weather py args clock points forecast w).2))
      location
    = Some r.
Proof.
  intros Hlat Hlong Hmemo Hcached Hnow.
  rewrite (weather_with_parameters py _ _ _ _ _ lat long) by done.
  rewrite (get_gridpoint_location_hit _ _ _ (Some location)) by done.
  rewrite (get_weather_hit py clock forecast location
             (set_gridpoint_memo _ w) r) by done.
  simpl. by rewrite decide_True.
Qed.

(** X22: within the lifetime of a report, repeated requests are free.  Once
    coordinates are resolved and the report of their location is cached,
    any number of further requests for these coordinates made before the
    report expires are all answered 200 with that very report, and none of
    them sends a remote request. *)
Theorem repeated_requests_cost_nothing (later : list call) w lat long
    location r :
  OrderedDict.get (gridpoint_memo w) (LatLong.Make lat long)
  = Some (Some location) →
  OrderedDict.get (entries (weather_cache w)) location = Some r →
  Forall (λ c, call_args c !! "latitude" = Some lat
               ∧ call_args c !! "longitude" = Some long
               ∧ (call_clock c 0%nat ≤ validity r)%Z) later →
  requests_sent (serve py later w) = requests_sent w
  ∧ ∀ before c after,
      later = before ++ c :: after →
      (weather py (call_args c) (call_clock c) (call_points c)
         (call_forecast c) (serve py before w)).1
      = Ret (HttpResponse 200 (Some "text/plain") (Metrics (value r))).
Proof.
  intros Hmemo Hcached Hlater.
  assert (∀ l w',
    Forall (λ c, call_args c !! "latitude" = Some lat
                 ∧ call_args c !! "longitude" = Some long
                 ∧ (call_clock c 0%nat ≤ validity r)%Z) l →
    OrderedDict.get (gridpoint_memo w') (LatLong.Make lat long)
    = Some (Some location) →
    OrderedDict.get (entries (weather_cache w')) location = Some r →
    requests_sent (serve py l w') = requests_sent w'
    ∧ OrderedDict.get (gridpoint_memo (serve py l w')) (LatLong.Make lat long)
      = Some (Some location)
    ∧ OrderedDict.get (entries (weather_cache (serve py l w'))) location
      = Some r) as Hserve.
  { induction l as [|c l IH]; intros w' Hl Hm Hc; [done|].
    apply Forall_cons in Hl as [(Hlat & Hlong & Hnow) Hl].
    destruct (weather_served (call_args c) (call_clock c) (call_points c)
                (call_forecast c) w' lat long location r)
      as (_ & Hreq & Hm' & Hc'); [done..|].
    change (serve py (c :: l) w') with (serve py l (serve_one py w' c)).
    destruct (IH (serve_one py w' c) Hl Hm' Hc') as (Hreq' & ? & ?).
    split_and!; [|done..]. rewrite Hreq'. exact Hreq. }
  split; [by apply Hserve|].
  intros before c after ->.
  apply Forall_app in Hlater as [Hbefore Hrest].
  apply Forall_cons in Hrest as [(Hlat & Hlong & Hnow) _].
  destruct (Hserve before w Hbefore Hmemo Hcached) as (_ & Hm & Hc).
  by destruct (weather_served (call_args c) (call_clock c) (call_points c)
                 (call_forecast c) (serve py before w) lat long location r)
    as (-> & _).
Qed.

(** The conversion-failure counter under the statements of the route. *)
Lemma keeps_unit_frame (U : gmap string nat) (f : World → World) :
  (∀ w, UNIT_CONVERSION_FAILURE (f w) = UNIT_CONVERSION_FAILURE w) →
  ∀ w, UNIT_CONVERSION_FAILURE w = U → UNIT_CONVERSION_FAILURE (f w) = U.
Proof. intros Hf w. by rewrite Hf. Qed.

Lemma noted_unit_known now data m w unit :
  OrderedDict.get prom_units (Measure.unit m) = Some unit →
  UNIT_CONVERSION_FAILURE (noted py now data m w) = UNIT_CONVERSION_FAILURE w.
Proof.
  unfold noted, note_no_unit, note_no_value, note_mismatch. intros ->.
  repeat case_match; done.
Qed.

Lemma keeps_unit_process_measures U clock data ms i reg :
  Forall (λ m, is_Some (OrderedDict.get prom_units (Measure.unit m))) ms →
  keeps (λ w, UNIT_CONVERSION_FAILURE w = U)
    (process_measures py clock i data ms reg).
Proof.
  intros Hms. revert i reg.
  induction Hms as [|m ms [unit Hm] _ IH]; intros i reg; simpl.
  { apply keeps_ret. }
  apply keeps_bind; [|intros; apply IH].
  intros w Hw.
  destruct (process_measure_labels py (clock i) data m reg w) as (_ & _ & ->).
  by rewrite (noted_unit_known _ _ _ _ unit).
Qed.

Lemma keeps_unit_weather U args clock points forecast :
  keeps (λ w, UNIT_CONVERSION_FAILURE w = U)
    (weather py args clock points forecast).
Proof.
  unfold weather. apply keeps_bind.
  { apply keeps_try_except_KeyError; [|apply keeps_ret].
    repeat (apply keeps_bind; [apply keeps_item | intros ?]).
    apply keeps_ret. }
  intros [latlong|]; [|apply keeps_ret].
  apply keeps_bind.
  { intros w Hw. unfold get_gridpoint_location, lru_cache.
    destruct (OrderedDict.get (gridpoint_memo w) latlong); [done|].
    assert (keeps (λ w, UNIT_CONVERSION_FAILURE w = U)
              (resolve_gridpoint points latlong)) as Hres.
    { unfold resolve_gridpoint. apply keeps_bind.
      { apply keeps_count_exceptions; [by apply keeps_unit_frame|].
        intros w'. by apply keeps_unit_frame. }
      intros data. apply keeps_try_except_KeyError; [|apply keeps_ret].
      apply keeps_count_exceptions; [by apply keeps_unit_frame|].
      repeat (apply keeps_bind; [apply keeps_item | intros ?]).
      apply keeps_ret. }
    specialize (Hres w Hw).
    by destruct (resolve_gridpoint points latlong w) as [[b|e] w']. }
  intros [gridpoint|]; [|apply keeps_ret].
  apply keeps_bind; [|intros; apply keeps_ret].
  unfold get_weather. apply keeps_bind; [by intros w|].
  intros [registry|]; [apply keeps_ret|].
  apply keeps_bind.
  { apply keeps_count_exceptions; [by apply keeps_unit_frame|].
    intros w'. by apply keeps_unit_frame. }
  intros data. apply keeps_bind.
  { apply keeps_unit_process_measures. apply Forall_forall.
    apply measures_units_known. }
  intros registry. apply keeps_bind; [by intros w | intros; apply keeps_ret].
Qed.

(** X23: the conversion-failure counter never moves.  Every unit of the
    catalog of measures has a conversion, so after any sequence of
    [/weather] requests, whatever they are answered, no conversion failure
    has been counted for any unit. *)
Theorem conversion_failures_never_counted (calls : list call) (unit : string) :
  count (UNIT_CONVERSION_FAILURE (serve py calls initial_world)) unit = 0.
Proof.
  assert (∀ w, UNIT_CONVERSION_FAILURE w = ∅ →
               UNIT_CONVERSION_FAILURE (serve py calls w) = ∅) as Hserve.
  { induction calls as [|c calls IH]; intros w Hw; [done|].
    simpl. apply IH. by apply (keeps_unit_weather ∅). }
  by rewrite Hserve.
Qed.
End life_of_the_process.

Section life_examples.
#[local] Open Scope Z_scope.
#[local] Set Warnings "-inexact-float".

Lemma stale_report_is_rebuilt_witness :
  requests_sent
    (get_weather Samples.python (λ _, 300000001) Samples.forecast_ok
       Samples.albany
       (get_weather Samples.python Samples.noon Samples.forecast_ok
          Samples.albany initial_world).2).2
  = [GridpointsRequest "ALY" 30 60; GridpointsRequest "ALY" 30 60].
Proof.
  destruct (stale_report_is_rebuilt Samples.python (λ _, 300000001) 200
              Samples.forecast_document Samples.albany
              (get_weather Samples.python Samples.noon Samples.forecast_ok
                 Samples.albany initial_world).2
              (ExpiringCache.Record_ 300000000
                 [("weather_dewpoint_celsius", 12.5%float);
                  ("weather_relative_humidity_ratio", 0.5%float)]))
    as (_ & _ & _ & _ & H).
  - reflexivity.
  - reflexivity.
  - vm_compute. discriminate.
  - exact H.
Defined.

Lemma repeated_requests_cost_nothing_witness :
  requests_sent
    (serve Samples.python
       [Call Scenarios.here Scenarios.a_minute_later NetworkError NetworkError;
        Call Scenarios.here Scenarios.a_minute_later NetworkError NetworkError]
       (serve Samples.python
          [Call Scenarios.here Samples.noon Samples.points_found
             Samples.forecast_ok] initial_world))
  = [PointsRequest "42.45" "-73.25"; GridpointsRequest "ALY" 30 60].
Proof.
  destruct (repeated_requests_cost_nothing Samples.python
              [Call Scenarios.here Scenarios.a_minute_later NetworkError
                 NetworkError;
               Call Scenarios.here Scenarios.a_minute_later NetworkError
                 NetworkError]
              (serve Samples.python
                 [Call Scenarios.here Samples.noon Samples.points_found
                    Samples.forecast_ok] initial_world)
              "42.45" "-73.25" Samples.albany
              (ExpiringCache.Record_ 300000000
                 [("weather_dewpoint_celsius", 12.5%float);
                  ("weather_relative_humidity_ratio", 0.5%float)]))
    as [H _].
  - reflexivity.
  - reflexivity.
  - repeat constructor; vm_compute; discriminate.
  - exact H.
Defined.
End life_examples.
